(** * The [migrate] management command (django/core/management/commands/migrate.py)

    A shallow embedding of [Command.handle], [Command.sync_apps] and
    [Command.migration_progress_callback].

    The command talks to a database and to several collaborators that live
    outside the file (the migration loader and executor, the schema editor,
    the signal dispatcher, other management commands).  Everything the
    command does to them is recorded, in program order, in a trace of
    [Event]s; the database is an abstract state threaded through the calls,
    and a raised Python exception is a result [inl e] that keeps the trace
    and the database reached so far.

    Not modelled: the import of the [management] modules of the installed
    applications (lines 55-59), the opening and closing of cursors, the
    colours of [self.style], and what the receivers of the two signals
    do. *)

From Stdlib Require Import List String Ascii ZArith Bool Lia.
Import ListNotations.
Open Scope string_scope.
Open Scope list_scope.

Infix "+++" := String.append (at level 60, right associativity).

(** ** Python helpers *)

(** [sep.join(xs)] *)
Fixpoint join (sep : string) (xs : list string) : string :=
  match xs with
  | [] => ""
  | [x] => x
  | x :: rest => x +++ sep +++ join sep rest
  end.

(** Truth value of a list, a dict or a set: non-empty. *)
Definition nonempty {A : Type} (l : list A) : bool :=
  match l with [] => false | _ :: _ => true end.

(** Truth value of an optional command line string: [None] and [''] are
    false. *)
Definition truthy (o : option string) : option string :=
  match o with
  | Some EmptyString => None
  | Some s => Some s
  | None => None
  end.

(** [x or default] on strings. *)
Definition str_or (s default : string) : string :=
  match s with EmptyString => default | _ => s end.

Definition nl : string := String (ascii_of_nat 10) EmptyString.

(** ** Data model *)

(** A model class, through the attributes of [model._meta] the command
    reads.  [auto_created] is [False] ([None]) or the model this one was
    created for, of which only [_meta.db_table] is read.  Python compares
    model classes by identity; here a model is identified by its
    attributes. *)
Record Model : Type := {
  app_label : string;
  object_name : string;
  db_table : string;
  auto_created : option string;
  proxy : bool;
  managed : bool
}.

Definition Model_eq_dec (a b : Model) : {a = b} + {a <> b}.
Proof.
  decide equality; try apply bool_dec; try apply string_dec.
  decide equality; apply string_dec.
Defined.

(** A Python [set] of models, as a list without duplicates in insertion
    order (the iteration order of a Python set is unspecified). *)
Definition set_add (m : Model) (s : list Model) : list Model :=
  if in_dec Model_eq_dec m s then s else s ++ [m].

Definition py_set (l : list Model) : list Model :=
  fold_left (fun s m => set_add m s) l [].

Definition mem (m : Model) (s : list Model) : bool :=
  if in_dec Model_eq_dec m s then true else false.

Fixpoint str_set (l : list string) : list string :=
  match l with
  | [] => []
  | x :: rest => if in_dec string_dec x rest then str_set rest else x :: str_set rest
  end.

(** An installed application: [app_config.label], whether
    [app_config.models_module is not None], and the result of
    [router.get_migratable_models(app_config, connection.alias,
    include_auto_created=False)]. *)
Record AppConfig : Type := {
  label : string;
  models_module : bool;
  migratable_models : list Model
}.

(** A target [(app_label, migration_name or None)]. *)
Definition Target : Type := (string * option string)%type.

(** A plan: migrations [(app_label, name)] with the direction flag. *)
Definition Plan : Type := list ((string * string) * bool)%type.

(** Exceptions. [OtherError] is any exception a collaborator raises. *)
Inductive Exn : Type :=
| CommandError (msg : string)
| AmbiguityError (msg : string)
| KeyError (msg : string)
| OtherError (msg : string).

(** [str(e)] *)
Definition exn_str (e : Exn) : string :=
  match e with
  | CommandError m | AmbiguityError m | KeyError m | OtherError m => m
  end.

(** One call of the progress callback by the executor. *)
Record Progress : Type := {
  action : string;
  migration : string;
  faked : bool
}.

(** The options of one invocation ([options] and the [self.*] copies). *)
Record Options : Type := {
  opt_app_label : option string;
  opt_migration_name : option string;
  verbosity : Z;
  interactive : bool;
  show_traceback : bool;
  load_initial_data : bool;
  database : string;
  fake : bool;
  opt_list : bool;
  test_flush : bool
}.

(** What [executor.loader], the application registry and the autodetector
    answer.  A dict or set is the list of its items in iteration order. *)
Record Project : Type := {
  app_configs : list AppConfig;
  detect_conflicts : list (string * list string);
  migrated_apps : list string;
  unmigrated_apps : list string;
  disk_migrations : list (string * string);
  leaf_nodes : list (string * string);
  autodetector_changes : list string
}.

Inductive AtomicExit : Type := Commit | Rollback.

(** The observable actions of the command, in the order of the trace.
    A call that can raise is recorded when it is made, whether it returns
    or raises. *)
Inductive Event : Type :=
| EWarning (msg : string)
| ECallCommand (name : string) (args : list string)
| EPrepareDatabase
| EStdout (msg : string)
| EStderr (msg : string)
| ETraceback (e : Exn)
| EPreMigrate (models : list Model)
| EPostMigrate (models : list Model)
| EAtomicEnter (savepoint : bool)
| EAtomicExit (how : AtomicExit)
| ECreateModel (model : Model) (deferred : option (list string))
| ESchemaEditorExit (deferred : list string)
| EExecDeferred (sql : string)
| EExecCustom (model : Model) (sql : string)
| EMigrate (targets : list Target) (plan : Plan) (fake : bool).

(** The connection and the collaborators that act on the database.
    A call that can raise returns the database it leaves and the
    exception, if any. *)
Record Backend (DB : Type) : Type := {
  can_rollback_ddl : bool;
  prepare_database : DB -> DB;
  table_names : DB -> list string;
  table_name_converter : string -> string;
  (** [editor.create_model(model)] in a fresh schema editor; on success,
      the content of [editor.deferred_sql] afterwards. *)
  create_model : Model -> DB -> DB * (Exn + list string);
  (** [cursor.execute(sql)] *)
  execute : string -> DB -> DB * option Exn;
  (** The database after a failed [transaction.atomic] block: entered at
      the first state, left at the second. *)
  rollback : DB -> DB -> DB;
  custom_sql_for_model : Model -> list string;
  call_loaddata : string -> DB -> DB * option Exn;
  call_flush : DB -> DB * option Exn;
  migration_plan : list Target -> DB -> Plan;
  executor_migrate :
    list Target -> Plan -> bool -> DB -> list Progress * DB * option Exn
}.

Arguments can_rollback_ddl {DB}.
Arguments prepare_database {DB}.
Arguments table_names {DB}.
Arguments table_name_converter {DB}.
Arguments create_model {DB}.
Arguments execute {DB}.
Arguments rollback {DB}.
Arguments custom_sql_for_model {DB}.
Arguments call_loaddata {DB}.
Arguments call_flush {DB}.
Arguments migration_plan {DB}.
Arguments executor_migrate {DB}.

(** ** The monad of the command: trace, database, exceptions *)

Definition M (DB A : Type) : Type := DB -> list Event * DB * (Exn + A).

Definition ret {DB A} (a : A) : M DB A := fun d => ([], d, inr a).

Definition raise {DB A} (e : Exn) : M DB A := fun d => ([], d, inl e).

Definition bind {DB A B} (m : M DB A) (f : A -> M DB B) : M DB B :=
  fun d =>
    match m d with
    | (l1, d1, inl e) => (l1, d1, inl e)
    | (l1, d1, inr a) =>
        match f a d1 with
        | (l2, d2, r) => (l1 ++ l2, d2, r)
        end
    end.

Notation "x <- m ;; f" := (bind m (fun x => f))
  (at level 61, m at next level, right associativity).
Notation "m ;; f" := (bind m (fun _ => f))
  (at level 61, right associativity).

(** Record events. *)
Definition tell {DB} (l : list Event) : M DB unit := fun d => (l, d, inr tt).

Definition lift {DB A} (r : Exn + A) : M DB A := fun d => ([], d, r).

(** A collaborator call that may raise, logged as [ev]. *)
Definition call {DB} (ev : Event) (f : DB -> DB * option Exn) : M DB unit :=
  fun d =>
    match f d with
    | (d1, Some e) => ([ev], d1, inl e)
    | (d1, None) => ([ev], d1, inr tt)
    end.

(** [try: m except Exception as e: h(e)] *)
Definition try_except {DB A} (m : M DB A) (h : Exn -> M DB A) : M DB A :=
  fun d =>
    match m d with
    | (l1, d1, inr a) => (l1, d1, inr a)
    | (l1, d1, inl e) =>
        match h e d1 with
        | (l2, d2, r) => (l1 ++ l2, d2, r)
        end
    end.

Definition log_of {DB A} (r : list Event * DB * (Exn + A)) : list Event :=
  fst (fst r).
Definition db_of {DB A} (r : list Event * DB * (Exn + A)) : DB :=
  snd (fst r).
Definition out_of {DB A} (r : list Event * DB * (Exn + A)) : Exn + A :=
  snd r.

(** [self.stdout.write(msg)] under a verbosity test. *)
Definition say (b : bool) (msg : string) : list Event :=
  if b then [EStdout msg] else [].

(** ** Ordered dictionaries *)

(** [d[k] = v] on an [OrderedDict]: a known key keeps its position. *)
Fixpoint od_set {V : Type} (k : string) (v : V) (d : list (string * V))
  : list (string * V) :=
  match d with
  | [] => [(k, v)]
  | (k', v') :: rest =>
      if string_dec k k' then (k, v) :: rest else (k', v') :: od_set k v rest
  end.

(** [OrderedDict(items)] *)
Definition OrderedDict {V : Type} (items : list (string * V))
  : list (string * V) :=
  fold_left (fun d kv => od_set (fst kv) (snd kv) d) items [].

(** [itertools.chain] over [d.values()] *)
Definition chain_values {V : Type} (d : list (string * list V)) : list V :=
  List.concat (map snd d).

Definition in_str (s : string) (l : list string) : bool :=
  if in_dec string_dec s l then true else false.

(** A [for] loop that carries the variables it assigns. *)
Fixpoint foldM {DB A S : Type} (body : A -> S -> M DB S) (l : list A) (s : S)
  : M DB S :=
  match l with
  | [] => ret s
  | a :: rest => s1 <- body a s ;; foldM body rest s1
  end.

Definition for_each {DB A : Type} (l : list A) (body : A -> M DB unit)
  : M DB unit :=
  foldM (fun a _ => body a) l tt.

(** ** Messages *)

(** [Command.handle], lines 91-98. *)
Definition conflict_entry (item : string * list string) : string :=
  join ", " (snd item) +++ " in " +++ fst item.

Definition conflict_message (conflicts : list (string * list string)) : string :=
  "Conflicting migrations detected (" +++
  join "; " (map conflict_entry conflicts) +++
  ")." +++ nl +++
  "To fix them run 'python manage.py makemigrations --merge'".

Definition unmigrated_app_message (app : string) : string :=
  "App '" +++ app +++
  "' does not have migrations (you cannot selectively sync unmigrated apps)".

Definition ambiguous_message (name app : string) : string :=
  "More than one migration matches '" +++ name +++ "' in app '" +++ app +++
  "'. Please be more specific.".

Definition unknown_migration_message (name app : string) : string :=
  "Cannot find a migration matching '" +++ name +++ "' from app '" +++ app +++
  "'.".

Definition changes_notice_1 : string :=
  "  Your models have changes that are not yet reflected in a migration, and so won't be applied.".

Definition changes_notice_2 : string :=
  "  Run 'manage.py makemigrations' to make new migrations, and then re-run 'manage.py migrate' to apply them.".

Definition custom_sql_failure_message (app_name : string) (model : Model)
  (e : Exn) : string :=
  "    Failed to install custom SQL for " +++ app_name +++ "." +++
  object_name model +++ " model: " +++ exn_str e +++ nl.

(** ** The migration loader *)

(** Modelled from the spec: [executor.loader.get_migration_by_prefix] is
    not part of this file.  The unit name is resolved "as a unique prefix
    among that component's Unit names": more than one match is an
    [AmbiguityError], no match a [KeyError], one match the migration's
    name. *)
Definition prefix_matches (disk : list (string * string)) (app prefix : string)
  : list (string * string) :=
  filter (fun key => String.eqb (fst key) app && String.prefix prefix (snd key))
         disk.

Definition get_migration_by_prefix (disk : list (string * string))
  (app prefix : string) : Exn + string :=
  match prefix_matches disk app prefix with
  | [] =>
      inl (KeyError ("There no migrations for '" +++ app +++
                     "' with the prefix '" +++ prefix +++ "'"))
  | [key] => inr (snd key)
  | _ :: _ :: _ =>
      inl (AmbiguityError ("There is more than one migration for '" +++ app +++
                           "' with the prefix '" +++ prefix +++ "'"))
  end.

(** ** Target resolution: [Command.handle], lines 100-136

    The result is [(targets, run_syncdb, target_app_labels_only)]. *)
Definition resolve_targets (P : Project) (opts : Options)
  : Exn + (list Target * bool * bool) :=
  match truthy (opt_app_label opts), truthy (opt_migration_name opts) with
  | Some app, Some migration_name =>
      if negb (in_str app (migrated_apps P)) then
        inl (CommandError (unmigrated_app_message app))
      else if String.eqb migration_name "zero" then
        inr ([(app, None)], false, false)
      else
        match get_migration_by_prefix (disk_migrations P) app migration_name with
        | inl (AmbiguityError _) =>
            inl (CommandError (ambiguous_message migration_name app))
        | inl (KeyError _) =>
            inl (CommandError (unknown_migration_message migration_name app))
        | inl e => inl e
        | inr name => inr ([(app, Some name)], false, false)
        end
  | Some app, None =>
      if negb (in_str app (migrated_apps P)) then
        inl (CommandError (unmigrated_app_message app))
      else
        inr (map (fun key => (fst key, Some (snd key)))
                 (filter (fun key => String.eqb (fst key) app) (leaf_nodes P)),
             false, true)
  | None, _ =>
      inr (map (fun key => (fst key, Some (snd key))) (leaf_nodes P), true, true)
  end.

(** ** The command *)

Section Command.

Context {DB : Type}.
Variable B : Backend DB.
Variable P : Project.
Variable opts : Options.

Let v : Z := verbosity opts.

(** [transaction.atomic(using=connection.alias, savepoint=savepoint)] *)
Definition atomic {A : Type} (savepoint : bool) (body : M DB A) : M DB A :=
  fun d =>
    match body d with
    | (l, d1, inr a) =>
        (EAtomicEnter savepoint :: l ++ [EAtomicExit Commit], d1, inr a)
    | (l, d1, inl e) =>
        (EAtomicEnter savepoint :: l ++ [EAtomicExit Rollback],
         rollback B d d1, inl e)
    end.

(** *** [Command.sync_apps] *)

(** Lines 246-251. *)
Definition all_models (app_labels : list string) : list (string * list Model) :=
  map (fun app_config => (label app_config, migratable_models app_config))
      (filter (fun app_config =>
                 models_module app_config && in_str (label app_config) app_labels)
              (app_configs P)).

(** Lines 253-258. *)
Definition model_installed (tables : list string) (model : Model) : bool :=
  negb (in_str (table_name_converter B (db_table model)) tables
        || match auto_created model with
           | Some base => in_str (table_name_converter B base) tables
           | None => false
           end).

(** Lines 260-263. *)
Definition manifest_of (tables : list string) (app_labels : list string)
  : list (string * list Model) :=
  OrderedDict
    (map (fun item => (fst item, filter (model_installed tables) (snd item)))
         (all_models app_labels)).

(** The manifest [sync_apps] builds on database [d]. *)
Definition the_manifest (app_labels : list string) (d : DB)
  : list (string * list Model) :=
  manifest_of (table_names B d) app_labels.

(** Line 284: [editor.create_model(model)] in the schema editor acquired
    for this model, recorded with the list it leaves in
    [editor.deferred_sql], or with [None] when it raises. *)
Definition editor_create_model (model : Model) : M DB (list string) :=
  fun d =>
    match create_model B model d with
    | (d1, inr deferred) => ([ECreateModel model (Some deferred)], d1, inr deferred)
    | (d1, inl e) => ([ECreateModel model None], d1, inl e)
    end.

(** Lines 274-287: the body of the inner loop; the state is
    [(deferred_sql, created_models)].  There is one schema editor per
    model: the statements it deferred are appended to the queue of the
    invocation and its own list is emptied before the [with] block is
    left, which [ESchemaEditorExit] records with the list left behind. *)
Definition create_table (app_name : string) (model : Model)
  (st : list string * list Model) : M DB (list string * list Model) :=
  if proxy model || negb (managed model) then ret st
  else
    tell (say (3 <=? v)%Z
              ("    Processing " +++ app_name +++ "." +++ object_name model +++
               " model" +++ nl)) ;;
    tell (say (1 <=? v)%Z ("    Creating table " +++ db_table model +++ nl)) ;;
    editor_deferred_sql <- editor_create_model model ;;
    let deferred_sql := fst st ++ editor_deferred_sql in
    let editor_deferred_sql := @nil string in
    tell [ESchemaEditorExit editor_deferred_sql] ;;
    ret (deferred_sql, set_add model (snd st)).

(** Lines 273-287. *)
Definition create_tables (manifest : list (string * list Model))
  (st : list string * list Model) : M DB (list string * list Model) :=
  foldM (fun item st => foldM (create_table (fst item)) (snd item) st)
        manifest st.

(** Lines 291-292. *)
Definition run_deferred_sql (deferred_sql : list string) : M DB unit :=
  for_each deferred_sql (fun statement =>
    call (EExecDeferred statement) (execute B statement)).

(** Lines 271-292. *)
Definition create_phase (manifest : list (string * list Model))
  : M DB (list Model) :=
  atomic (can_rollback_ddl B)
    (st <- create_tables manifest ([], []) ;;
     tell (say (1 <=? v)%Z ("    Running deferred SQL..." +++ nl)) ;;
     run_deferred_sql (fst st) ;;
     ret (snd st)).

(** Lines 305-329: the body of the inner loop. *)
Definition install_custom_sql (created_models : list Model) (app_name : string)
  (model : Model) : M DB unit :=
  if mem model created_models then
    let custom_sql := custom_sql_for_model B model in
    if nonempty custom_sql then
      tell (say (2 <=? v)%Z
                ("    Installing custom SQL for " +++ app_name +++ "." +++
                 object_name model +++ " model" +++ nl)) ;;
      try_except
        (atomic true
           (for_each custom_sql (fun sql =>
              call (EExecCustom model sql) (execute B sql))))
        (fun e =>
           tell (EStderr (custom_sql_failure_message app_name model e)
                 :: if show_traceback opts then [ETraceback e] else []))
    else
      tell (say (3 <=? v)%Z
                ("    No custom SQL for " +++ app_name +++ "." +++
                 object_name model +++ " model" +++ nl))
  else ret tt.

(** Lines 303-329. *)
Definition custom_sql_phase (manifest : list (string * list Model))
  (created_models : list Model) : M DB unit :=
  for_each manifest (fun item =>
    for_each (snd item) (install_custom_sql created_models (fst item))).

(** Lines 334-340. *)
Definition load_fixtures (app_labels : list string) : M DB unit :=
  if load_initial_data opts then
    for_each app_labels (fun app_label =>
      call (ECallCommand "loaddata" ["initial_data"; app_label])
           (call_loaddata B app_label))
  else ret tt.

(** Lines 269-270. *)
Definition creating_tables : list Event :=
  say (1 <=? v)%Z ("  Creating tables..." +++ nl).

(** Lines 296-342, once the creation transaction is over. *)
Definition after_creation (manifest : list (string * list Model))
  (app_labels : list string) (created_models : list Model) : M DB (list Model) :=
  tell (say (1 <=? v)%Z ("  Installing custom SQL..." +++ nl)) ;;
  custom_sql_phase manifest created_models ;;
  load_fixtures app_labels ;;
  ret created_models.

Definition sync_apps (app_labels : list string) : M DB (list Model) :=
  fun d =>
    let manifest := the_manifest app_labels d in
    let create_models := py_set (chain_values manifest) in
    (tell [EPreMigrate create_models] ;;
     tell creating_tables ;;
     created_models <- create_phase manifest ;;
     after_creation manifest app_labels created_models) d.

(** *** [Command.migration_progress_callback] *)

Definition migration_progress_callback (p : Progress) : list Event :=
  if (1 <=? v)%Z then
    if String.eqb (action p) "apply_start" then
      [EStdout ("  Applying " +++ migration p +++ "...")]
    else if String.eqb (action p) "apply_success" then
      if faked p then [EStdout " FAKED"] else [EStdout " OK"]
    else if String.eqb (action p) "unapply_start" then
      [EStdout ("  Unapplying " +++ migration p +++ "...")]
    else if String.eqb (action p) "unapply_success" then
      if faked p then [EStdout " FAKED"] else [EStdout " OK"]
    else []
  else [].

(** *** [Command.handle] *)

(** Lines 141-162. *)
Definition operations_to_perform (targets : list Target)
  (run_syncdb target_app_labels_only : bool) : list Event :=
  if (1 <=? v)%Z then
    [EStdout "Operations to perform:"] ++
    (if run_syncdb && nonempty (unmigrated_apps P) then
       [EStdout ("  Synchronize unmigrated apps: " +++
                 join ", " (unmigrated_apps P))]
     else []) ++
    (if target_app_labels_only then
       [EStdout ("  Apply all migrations: " +++
                 str_or (join ", " (str_set (map fst targets))) "(none)")]
     else
       match targets with
       | (app, None) :: _ => [EStdout ("  Unapply all migrations: " +++ app)]
       | (app, Some name) :: _ =>
           [EStdout ("  Target specific migration: " +++ name +++ ", from " +++ app)]
       | [] => []
       end)
  else [].

(** Lines 191-209. *)
Definition no_migrations_report : list Event :=
  if (1 <=? v)%Z then
    EStdout "  No migrations to apply." ::
    (if nonempty (autodetector_changes P) then
       [EStdout changes_notice_1; EStdout changes_notice_2]
     else [])
  else [].

(** Line 211. *)
Definition migrate (targets : list Target) (plan : Plan) : M DB unit :=
  fun d =>
    match executor_migrate B targets plan (fake opts) d with
    | (progress, d1, r) =>
        (EMigrate targets plan (fake opts)
           :: flat_map migration_progress_callback progress,
         d1,
         match r with Some e => inl e | None => inr tt end)
    end.

(** Lines 66-80. *)
Definition show_migrations : M DB unit :=
  tell [EWarning "The 'migrate --list' command is deprecated. Use 'showmigrations' instead.";
        ECallCommand "showmigrations"
          ("--list" :: match truthy (opt_app_label opts) with
                       | Some app => [app]
                       | None => []
                       end)].

(** Lines 164-174: the legacy synchronisation, or the signal alone. *)
Definition legacy_sync (run_syncdb : bool) : M DB (list Model) :=
  if run_syncdb && nonempty (unmigrated_apps P) then
    tell (say (1 <=? v)%Z "Synchronizing apps without migrations:") ;;
    sync_apps (unmigrated_apps P)
  else
    tell [EPreMigrate []] ;; ret [].

(** Lines 176-186. *)
Definition flush_for_tests : M DB unit :=
  if test_flush opts then call (ECallCommand "flush" []) (call_flush B)
  else ret tt.

(** Lines 188-211. *)
Definition run_migrations (targets : list Target) (plan : Plan) : M DB unit :=
  tell (say (1 <=? v)%Z "Running migrations:") ;;
  match plan with
  | [] => tell no_migrations_report
  | _ :: _ => migrate targets plan
  end.

Definition handle : M DB unit :=
  if opt_list opts then show_migrations
  else
    (fun d => ([EPrepareDatabase], prepare_database B d, inr tt)) ;;
    let conflicts := detect_conflicts P in
    if nonempty conflicts then
      raise (CommandError (conflict_message conflicts))
    else
      r <- lift (resolve_targets P opts) ;;
      let targets := fst (fst r) in
      let run_syncdb := snd (fst r) in
      let target_app_labels_only := snd r in
      plan <- (fun d => ([], d, inr (migration_plan B targets d))) ;;
      tell (operations_to_perform targets run_syncdb target_app_labels_only) ;;
      created_models <- legacy_sync run_syncdb ;;
      flush_for_tests ;;
      run_migrations targets plan ;;
      tell [EPostMigrate created_models].

End Command.

(** ** What a trace shows *)

(** The models a table may be created for. *)
Definition eligible (m : Model) : bool := negb (proxy m || negb (managed m)).

(** The statements the schema editors deferred, in the order of the table
    creations that produced them. *)
Definition produced (log : list Event) : list string :=
  flat_map (fun e => match e with
                     | ECreateModel _ (Some deferred) => deferred
                     | _ => []
                     end) log.

(** The deferred statements that were executed, in order. *)
Definition executed_deferred (log : list Event) : list string :=
  flat_map (fun e => match e with EExecDeferred sql => [sql] | _ => [] end) log.

Definition pre_signals (log : list Event) : list (list Model) :=
  flat_map (fun e => match e with EPreMigrate ms => [ms] | _ => [] end) log.

Definition post_signals (log : list Event) : list (list Model) :=
  flat_map (fun e => match e with EPostMigrate ms => [ms] | _ => [] end) log.

Definition is_create (e : Event) : bool :=
  match e with ECreateModel _ _ => true | _ => false end.

Definition is_exec_deferred (e : Event) : bool :=
  match e with EExecDeferred _ => true | _ => false end.

Definition is_exec_custom (e : Event) : bool :=
  match e with EExecCustom _ _ => true | _ => false end.

Definition is_migrate (e : Event) : bool :=
  match e with EMigrate _ _ _ => true | _ => false end.

(** The events of the table creation loop over [models]. *)
Definition create_event (models : list Model) (e : Event) : Prop :=
  match e with
  | EStdout _ => True
  | ECreateModel m _ => eligible m = true /\ In m models
  | ESchemaEditorExit deferred => deferred = []
  | _ => False
  end.

(** The events of the rest of the creation transaction. *)
Definition deferred_event (e : Event) : Prop :=
  match e with
  | EStdout _ | EExecDeferred _ | EAtomicExit _ => True
  | _ => False
  end.

(** The events of [sync_apps] after the creation transaction; [C] holds of
    the models that were created. *)
Definition install_event (C : Model -> Prop) (e : Event) : Prop :=
  match e with
  | EStdout _ | EStderr _ | ETraceback _ | EAtomicEnter _ | EAtomicExit _
  | ECallCommand _ _ => True
  | EExecCustom m _ => C m
  | _ => False
  end.

(** The signals are the two events [EPreMigrate] and [EPostMigrate]. *)
Definition no_signal (e : Event) : Prop :=
  match e with
  | EPreMigrate _ | EPostMigrate _ => False
  | _ => True
  end.

(** The events of the steps of [handle] after the legacy synchronisation. *)
Definition progress_event (e : Event) : Prop :=
  match e with
  | EStdout _ | ECallCommand _ _ | EMigrate _ _ _ => True
  | _ => False
  end.

(** What [handle] writes and the commands it calls. *)
Definition report_event (e : Event) : Prop :=
  match e with
  | EStdout _ | ECallCommand _ _ => True
  | _ => False
  end.

(** [emits Q m]: every event [m] records satisfies [Q], whatever the
    database and whether or not [m] raises. *)
Definition emits {DB A : Type} (Q : Event -> Prop) (m : M DB A) : Prop :=
  forall d, Forall Q (log_of (m d)).


(** The applications and models [sync_apps] works on: [all_models] as an
    ordered dictionary keeps it. *)
Definition candidates (P : Project) (app_labels : list string)
  : list (string * list Model) :=
  OrderedDict (all_models P app_labels).

Definition on_values {V W : Type} (g : V -> W) (item : string * V) : string * W :=
  (fst item, g (snd item)).

(** The pairs [(app_name, model)] of the nested loops over a manifest, in
    the order the loops visit them. *)
Definition visits (manifest : list (string * list Model)) : list (string * Model) :=
  flat_map (fun item => map (pair (fst item)) (snd item)) manifest.

(** The management commands called, with their arguments, in order. *)
Definition commands (log : list Event) : list (string * list string) :=
  flat_map (fun e => match e with
                     | ECallCommand name args => [(name, args)]
                     | _ => []
                     end) log.

(** The calls of [executor.migrate], in order. *)
Definition migrations_run (log : list Event) : list (list Target * Plan * bool) :=
  flat_map (fun e => match e with
                     | EMigrate targets plan fake => [(targets, plan, fake)]
                     | _ => []
                     end) log.

(** The call of [loaddata] for one application label (lines 336-340). *)
Definition loaddata_call (app_label : string) : string * list string :=
  ("loaddata", ["initial_data"; app_label]).

Definition is_command (e : Event) : bool :=
  match e with ECallCommand _ _ => true | _ => false end.

Definition is_stdout (e : Event) : bool :=
  match e with EStdout _ => true | _ => false end.

(** The events only the legacy synchronisation produces: table creation,
    deferred and custom SQL, transactions, fixtures. *)
Definition is_legacy_sync (e : Event) : bool :=
  match e with
  | ECreateModel _ _ | EExecDeferred _ | EExecCustom _ _
  | EAtomicEnter _ | EAtomicExit _ => true
  | ECallCommand name _ => String.eqb name "loaddata"
  | _ => false
  end.

(** Reading a trace with the transactions it opens and closes: [bracketed
    inside log] is [None] when a transaction is opened inside another
    one, when one is closed that is not open, or when a table is created
    or a statement executed outside a transaction; otherwise it tells
    whether a transaction is open at the end. *)
Fixpoint bracketed (inside : bool) (log : list Event) : option bool :=
  match log with
  | [] => Some inside
  | EAtomicEnter _ :: rest => if inside then None else bracketed true rest
  | EAtomicExit _ :: rest => if inside then bracketed false rest else None
  | ECreateModel _ _ :: rest | EExecDeferred _ :: rest | EExecCustom _ _ :: rest =>
      if inside then bracketed inside rest else None
  | _ :: rest => bracketed inside rest
  end.

(** The events that neither open nor close a transaction nor need one. *)
Definition outside_event (e : Event) : Prop :=
  match e with
  | EAtomicEnter _ | EAtomicExit _ | ECreateModel _ _ | EExecDeferred _
  | EExecCustom _ _ => False
  | _ => True
  end.

(** The events that neither open nor close a transaction. *)
Definition inside_event (e : Event) : Prop :=
  match e with
  | EAtomicEnter _ | EAtomicExit _ => False
  | _ => True
  end.

(** The models whose table a trace shows created. *)
Definition created_in (log : list Event) (m : Model) : Prop :=
  exists deferred, In (ECreateModel m (Some deferred)) log.

Section Views.

Context {DB : Type}.
Variable B : Backend DB.
Variable P : Project.
Variable opts : Options.

(** The body of the table creation loop, on a visit. *)
Definition create_visit (visit : string * Model) (st : list string * list Model)
  : M DB (list string * list Model) :=
  create_table B opts (fst visit) (snd visit) st.

Definition creating_messages (app_name : string) (m : Model) : list Event :=
  say (3 <=? verbosity opts)%Z
      ("    Processing " +++ app_name +++ "." +++ object_name m +++ " model" +++ nl)
  ++ say (1 <=? verbosity opts)%Z ("    Creating table " +++ db_table m +++ nl).

(** The body of the custom SQL loop, on a visit. *)
Definition install_visit (created_models : list Model) (visit : string * Model)
  : M DB unit :=
  install_custom_sql B opts created_models (fst visit) (snd visit).

(** What the custom SQL phase records for one model of the manifest. *)
Definition install_block (created_models : list Model) (visit : string * Model)
  (block : list Event) : Prop :=
  let app_name := fst visit in
  let m := snd visit in
  let sqls := custom_sql_for_model B m in
  if mem m created_models then
    match sqls with
    | [] =>
        block = say (3 <=? verbosity opts)%Z
                    ("    No custom SQL for " +++ app_name +++ "." +++
                     object_name m +++ " model" +++ nl)
    | first :: _ =>
        exists attempted outcome,
          block =
            say (2 <=? verbosity opts)%Z
                ("    Installing custom SQL for " +++ app_name +++ "." +++
                 object_name m +++ " model" +++ nl)
            ++ EAtomicEnter true :: map (EExecCustom m) (first :: attempted)
            ++ outcome /\
          ((first :: attempted = sqls /\ outcome = [EAtomicExit Commit]) \/
           (exists k e sql d0 d1,
              first :: attempted = firstn (S k) sqls /\
              nth_error sqls k = Some sql /\
              execute B sql d0 = (d1, Some e) /\
              outcome =
                EAtomicExit Rollback
                :: EStderr (custom_sql_failure_message app_name m e)
                :: (if show_traceback opts then [ETraceback e] else [])))
    end
  else block = [].

(** The payload of the one pre-migrate signal of an invocation that
    starts the legacy synchronisation, or not, on database [d]. *)
Definition pre_migrate_payload (run_syncdb : bool) (d : DB) : list Model :=
  if run_syncdb && nonempty (unmigrated_apps P) then
    py_set (chain_values (the_manifest B P (unmigrated_apps P) d))
  else [].

End Views.

(** ** A concrete installation, used to run the command *)

Module Demo.

Definition author : Model :=
  {| app_label := "library"; object_name := "Author"; db_table := "library_author";
     auto_created := None; proxy := false; managed := true |}.

Definition book : Model :=
  {| app_label := "library"; object_name := "Book"; db_table := "library_book";
     auto_created := None; proxy := false; managed := true |}.

(** A proxy of [Book]: it shares the table of [Book]. *)
Definition rare_book : Model :=
  {| app_label := "library"; object_name := "RareBook"; db_table := "library_book";
     auto_created := None; proxy := true; managed := true |}.

(** A model whose table is managed elsewhere. *)
Definition legacy_view : Model :=
  {| app_label := "library"; object_name := "LegacyView"; db_table := "legacy_view";
     auto_created := None; proxy := false; managed := false |}.

Definition library : AppConfig :=
  {| label := "library"; models_module := true;
     migratable_models := [author; book; rare_book; legacy_view] |}.

(** The database is the list of its tables.  Creating a table that exists
    fails, a statement that starts with [FAIL] fails, [Book] defers its
    foreign key to [Author], and both models have custom SQL. *)
Definition backend : Backend (list string) :=
  {| can_rollback_ddl := true;
     prepare_database := fun d => d;
     table_names := fun d => d;
     table_name_converter := fun s => s;
     create_model := fun m d =>
       if in_str (db_table m) d then (d, inl (OtherError "table exists"))
       else (d ++ [db_table m],
             inr (if String.eqb (object_name m) "Book"
                  then ["ALTER TABLE library_book ADD FOREIGN KEY (author_id)"]
                  else []));
     execute := fun sql d =>
       if String.prefix "FAIL" sql then (d, Some (OtherError "syntax error"))
       else (d, None);
     rollback := fun d0 _ => d0;
     custom_sql_for_model := fun m =>
       if String.eqb (object_name m) "Author" then ["FAIL author.sql"]
       else if String.eqb (object_name m) "Book" then ["INSERT INTO library_book"]
       else [];
     call_loaddata := fun _ d => (d, None);
     call_flush := fun d => (d, None);
     migration_plan := fun targets d =>
       flat_map (fun t => match snd t with
                          | Some name =>
                              if in_str "django_migrations" d then []
                              else [((fst t, name), false)]
                          | None => []
                          end) targets;
     executor_migrate := fun targets plan fake d =>
       (flat_map (fun step =>
                    [ {| action := "apply_start"; migration := snd (fst step);
                         faked := fake |};
                      {| action := "apply_success"; migration := snd (fst step);
                         faked := fake |} ]) plan,
        d ++ ["django_migrations"], None) |}.

Definition project : Project :=
  {| app_configs := [library];
     detect_conflicts := [];
     migrated_apps := ["blog"];
     unmigrated_apps := ["library"];
     disk_migrations :=
       [("blog", "0001_initial"); ("blog", "0002_add_author");
        ("blog", "0002_add_tags")];
     leaf_nodes := [("blog", "0002_add_author")];
     autodetector_changes := ["blog"] |}.

(** The same project with two heads in [blog]. *)
Definition conflicting_project : Project :=
  {| app_configs := [library];
     detect_conflicts := [("blog", ["0002_add_author"; "0002_add_tags"])];
     migrated_apps := ["blog"];
     unmigrated_apps := ["library"];
     disk_migrations :=
       [("blog", "0001_initial"); ("blog", "0002_add_author");
        ("blog", "0002_add_tags")];
     leaf_nodes := [("blog", "0002_add_author"); ("blog", "0002_add_tags")];
     autodetector_changes := [] |}.

Definition options (app name : option string) (verb : Z) : Options :=
  {| opt_app_label := app; opt_migration_name := name; verbosity := verb;
     interactive := false; show_traceback := false; load_initial_data := true;
     database := "default"; fake := false; opt_list := false;
     test_flush := false |}.


(** The options of the test runner: quiet, and with a flush
    between the synchronisation and the migrations. *)
Definition test_runner_options : Options :=
  {| opt_app_label := None; opt_migration_name := None; verbosity := 0;
     interactive := false; show_traceback := false; load_initial_data := false;
     database := "default"; fake := false; opt_list := false;
     test_flush := true |}.

(** Nothing installed and no migration on disk. *)
Definition empty_project : Project :=
  {| app_configs := [];
     detect_conflicts := [];
     migrated_apps := [];
     unmigrated_apps := [];
     disk_migrations := [];
     leaf_nodes := [];
     autodetector_changes := [] |}.

(** The same backend with an executor that raises on its first migration. *)
Definition broken_executor : Backend (list string) :=
  {| can_rollback_ddl := can_rollback_ddl backend;
     prepare_database := prepare_database backend;
     table_names := table_names backend;
     table_name_converter := table_name_converter backend;
     create_model := create_model backend;
     execute := execute backend;
     rollback := rollback backend;
     custom_sql_for_model := custom_sql_for_model backend;
     call_loaddata := call_loaddata backend;
     call_flush := call_flush backend;
     migration_plan := migration_plan backend;
     executor_migrate := fun targets plan fake d =>
       ([ {| action := "apply_start"; migration := "0001_initial";
             faked := fake |} ],
        d, Some (OtherError "relation already exists")) |}.

(** The same backend with a schema editor that cannot create tables. *)
Definition broken_editor : Backend (list string) :=
  {| can_rollback_ddl := can_rollback_ddl backend;
     prepare_database := prepare_database backend;
     table_names := table_names backend;
     table_name_converter := table_name_converter backend;
     create_model := fun m d => (d, inl (OtherError "permission denied"));
     execute := execute backend;
     rollback := rollback backend;
     custom_sql_for_model := custom_sql_for_model backend;
     call_loaddata := call_loaddata backend;
     call_flush := call_flush backend;
     migration_plan := migration_plan backend;
     executor_migrate := executor_migrate backend |}.

(** A database in which everything is installed and applied. *)
Definition up_to_date : list string :=
  ["django_migrations"; "library_author"; "library_book"].

End Demo.

(** ** Reasoning about runs *)

Section Runs.

Context {DB : Type}.

Lemma bind_log {A C : Type} (m : M DB A) (f : A -> M DB C) d :
  log_of (bind m f d) =
  log_of (m d) ++
  match out_of (m d) with
  | inr a => log_of (f a (db_of (m d)))
  | inl _ => []
  end.
Proof.
  unfold bind, log_of, out_of, db_of.
  destruct (m d) as [[l1 d1] [e | a]]; simpl.
  - now rewrite app_nil_r.
  - now destruct (f a d1) as [[l2 d2] r].
Qed.

Lemma bind_out {A C : Type} (m : M DB A) (f : A -> M DB C) d :
  out_of (bind m f d) =
  match out_of (m d) with
  | inr a => out_of (f a (db_of (m d)))
  | inl e => inl e
  end.
Proof.
  unfold bind, out_of, db_of.
  destruct (m d) as [[l1 d1] [e | a]]; simpl; [reflexivity |].
  now destruct (f a d1) as [[l2 d2] r].
Qed.

Section Emits.

Variable Q : Event -> Prop.

Lemma emits_ret {A : Type} (a : A) : emits Q (@ret DB A a).
Proof. intro d. constructor. Qed.

Lemma emits_tell (l : list Event) : Forall Q l -> emits Q (@tell DB l).
Proof. intros H d. exact H. Qed.

Lemma Forall_say (b : bool) (msg : string) :
  Q (EStdout msg) -> Forall Q (say b msg).
Proof. intro H. destruct b; simpl; auto. Qed.

Lemma emits_call (ev : Event) (f : DB -> DB * option Exn) :
  Q ev -> emits Q (call ev f).
Proof.
  intros H d. unfold call, log_of. destruct (f d) as [d1 [e |]]; simpl; auto.
Qed.

Lemma emits_bind {A C : Type} (m : M DB A) (f : A -> M DB C) :
  emits Q m -> (forall a, emits Q (f a)) -> emits Q (bind m f).
Proof.
  intros Hm Hf d. rewrite bind_log. apply Forall_app. split; [apply Hm |].
  destruct (out_of (m d)); [constructor | apply Hf].
Qed.

Lemma emits_try_except {A : Type} (m : M DB A) (h : Exn -> M DB A) :
  emits Q m -> (forall e, emits Q (h e)) -> emits Q (try_except m h).
Proof.
  intros Hm Hh d. unfold try_except. specialize (Hm d).
  destruct (m d) as [[l1 d1] [e | a]]; simpl in *; [| exact Hm].
  specialize (Hh e d1). destruct (h e d1) as [[l2 d2] r]; simpl in *.
  apply Forall_app. auto.
Qed.

Lemma emits_foldM {A S : Type} (body : A -> S -> M DB S) (l : list A) :
  (forall a s, emits Q (body a s)) -> forall s, emits Q (foldM body l s).
Proof.
  intro Hb. induction l as [| a l IH]; intro s; simpl.
  - apply emits_ret.
  - apply emits_bind; auto.
Qed.

Lemma emits_for_each {A : Type} (l : list A) (body : A -> M DB unit) :
  (forall a, emits Q (body a)) -> emits Q (for_each l body).
Proof. intro Hb. apply emits_foldM. auto. Qed.

Lemma emits_atomic {A : Type} (B : Backend DB) (sp : bool) (m : M DB A) :
  Q (EAtomicEnter sp) -> (forall how, Q (EAtomicExit how)) ->
  emits Q m -> emits Q (atomic B sp m).
Proof.
  intros He Hx Hm d. unfold atomic. specialize (Hm d).
  destruct (m d) as [[l d1] [e | a]]; simpl in *;
    (constructor; [exact He | apply Forall_app; auto]).
Qed.

End Emits.

End Runs.

(** ** Target resolution *)

Lemma in_str_true (s : string) (l : list string) : In s l -> in_str s l = true.
Proof. intro H. unfold in_str. destruct (in_dec string_dec s l); tauto. Qed.

Lemma in_str_iff (s : string) (l : list string) : in_str s l = true <-> In s l.
Proof.
  unfold in_str. destruct (in_dec string_dec s l); split; auto; discriminate.
Qed.

Lemma prefix_matches_spec (disk : list (string * string)) (app prefix : string)
  (key : string * string) :
  In key (prefix_matches disk app prefix) <->
  In key disk /\ fst key = app /\ String.prefix prefix (snd key) = true.
Proof.
  unfold prefix_matches. rewrite filter_In, andb_true_iff, String.eqb_eq.
  tauto.
Qed.

(** C7, as amended: for every request that gives a component and the unit
    name [zero], when the component has migrations (it is one of
    [migrated_apps]) the resolver yields the single target
    [(component, None)], whatever the migrations on disk and the leaf nodes
    are; legacy synchronisation is not requested. *)
Theorem C7_zero_unapplies_everything (P : Project) (opts : Options) (app : string) :
  truthy (opt_app_label opts) = Some app ->
  opt_migration_name opts = Some "zero" ->
  In app (migrated_apps P) ->
  resolve_targets P opts = inr ([(app, None)], false, false).
Proof.
  intros Happ Hname Hin. unfold resolve_targets.
  rewrite Happ, Hname. simpl truthy. cbv iota.
  now rewrite (in_str_true _ _ Hin).
Qed.

Lemma C7_zero_unapplies_everything_witness :
  resolve_targets Demo.project (Demo.options (Some "blog") (Some "zero") 1) =
  inr ([("blog", None)], false, false).
Proof.
  apply (C7_zero_unapplies_everything Demo.project
           (Demo.options (Some "blog") (Some "zero") 1) "blog").
  - reflexivity.
  - reflexivity.
  - simpl. auto.
Defined.

(** C7 as stated fails: a component without migrations cannot be rolled
    back to [zero]; the request is refused before the unit name is looked
    at. *)
Lemma C7_zero_refused_without_migrations :
  opt_app_label (Demo.options (Some "ghost") (Some "zero") 1) = Some "ghost" /\
  opt_migration_name (Demo.options (Some "ghost") (Some "zero") 1) = Some "zero" /\
  resolve_targets Demo.project (Demo.options (Some "ghost") (Some "zero") 1) =
  inl (CommandError (unmigrated_app_message "ghost")) /\
  resolve_targets Demo.project (Demo.options (Some "ghost") (Some "zero") 1) <>
  inr ([("ghost", None)], false, false).
Proof.
  repeat split; try reflexivity. discriminate.
Qed.

(** C8, as amended: for every request that gives a component with
    migrations and a unit name other than [zero], the name is resolved as a
    prefix among the names of that component's migrations: two or more
    matches are refused as ambiguous, no match is refused as unknown, and a
    single match yields the single target [(component, full name)]. *)
Theorem C8_prefix_resolution (P : Project) (opts : Options) (app name : string) :
  truthy (opt_app_label opts) = Some app ->
  truthy (opt_migration_name opts) = Some name ->
  name <> "zero" ->
  In app (migrated_apps P) ->
  let found := prefix_matches (disk_migrations P) app name in
  (forall key, In key found <->
     In key (disk_migrations P) /\ fst key = app /\
     String.prefix name (snd key) = true) /\
  (2 <= List.length found ->
   resolve_targets P opts = inl (CommandError (ambiguous_message name app))) /\
  (found = [] ->
   resolve_targets P opts = inl (CommandError (unknown_migration_message name app))) /\
  (forall key, found = [key] ->
   resolve_targets P opts = inr ([(app, Some (snd key))], false, false)).
Proof.
  intros Happ Hname Hzero Hin found.
  assert (Hres : resolve_targets P opts =
                 match get_migration_by_prefix (disk_migrations P) app name with
                 | inl (AmbiguityError _) =>
                     inl (CommandError (ambiguous_message name app))
                 | inl (KeyError _) =>
                     inl (CommandError (unknown_migration_message name app))
                 | inl e => inl e
                 | inr full => inr ([(app, Some full)], false, false)
                 end).
  { unfold resolve_targets. rewrite Happ, Hname.
    rewrite (in_str_true _ _ Hin). simpl negb. cbv iota.
    apply String.eqb_neq in Hzero. now rewrite Hzero. }
  split; [intro key; apply prefix_matches_spec |].
  unfold get_migration_by_prefix in Hres. fold found in Hres.
  repeat split.
  - intro Hlen. destruct found as [| k1 [| k2 rest]]; simpl in Hlen; try lia.
    exact Hres.
  - intro Hnil. now rewrite Hnil in Hres.
  - intros key Hone. now rewrite Hone in Hres.
Qed.

Lemma C8_prefix_resolution_witness :
  resolve_targets Demo.project (Demo.options (Some "blog") (Some "0001") 1) =
  inr ([("blog", Some "0001_initial")], false, false) /\
  resolve_targets Demo.project (Demo.options (Some "blog") (Some "0002") 1) =
  inl (CommandError (ambiguous_message "0002" "blog")) /\
  resolve_targets Demo.project (Demo.options (Some "blog") (Some "0003") 1) =
  inl (CommandError (unknown_migration_message "0003" "blog")).
Proof.
  assert (Hin : In "blog" (migrated_apps Demo.project)) by (simpl; auto).
  split; [| split].
  - destruct (C8_prefix_resolution Demo.project
                (Demo.options (Some "blog") (Some "0001") 1) "blog" "0001"
                eq_refl eq_refl ltac:(discriminate) Hin) as [_ [_ [_ Hone]]].
    exact (Hone ("blog", "0001_initial") eq_refl).
  - destruct (C8_prefix_resolution Demo.project
                (Demo.options (Some "blog") (Some "0002") 1) "blog" "0002"
                eq_refl eq_refl ltac:(discriminate) Hin) as [_ [Hmany _]].
    apply Hmany. simpl. lia.
  - destruct (C8_prefix_resolution Demo.project
                (Demo.options (Some "blog") (Some "0003") 1) "blog" "0003"
                eq_refl eq_refl ltac:(discriminate) Hin) as [_ [_ [Hnone _]]].
    apply Hnone. reflexivity.
Defined.

(** C8 as stated fails: for a component without migrations no migration
    matches the prefix, and the request is refused because the component
    has no migrations, not because the unit is unknown. *)
Lemma C8_unknown_component_not_unknown_unit :
  prefix_matches (disk_migrations Demo.project) "ghost" "0001" = [] /\
  resolve_targets Demo.project (Demo.options (Some "ghost") (Some "0001") 1) =
  inl (CommandError (unmigrated_app_message "ghost")) /\
  resolve_targets Demo.project (Demo.options (Some "ghost") (Some "0001") 1) <>
  inl (CommandError (unknown_migration_message "0001" "ghost")).
Proof.
  repeat split; try reflexivity. discriminate.
Qed.

(** ** The conflict check *)












(** ** The manifest *)

Lemma od_set_map {V W : Type} (g : V -> W) (k : string) (v : V)
  (d : list (string * V)) :
  od_set k (g v) (map (on_values g) d) = map (on_values g) (od_set k v d).
Proof.
  induction d as [| [k' v'] d IH]; simpl; [reflexivity |].
  destruct (string_dec k k'); simpl; [reflexivity | now rewrite IH].
Qed.

Lemma OrderedDict_map {V W : Type} (g : V -> W) (items : list (string * V)) :
  OrderedDict (map (on_values g) items) = map (on_values g) (OrderedDict items).
Proof.
  unfold OrderedDict.
  change (@nil (string * W)) with (map (on_values g) (@nil (string * V))).
  generalize (@nil (string * V)) as acc.
  induction items as [| [k v] items IH]; intro acc; simpl; [reflexivity |].
  rewrite od_set_map. apply IH.
Qed.

Lemma manifest_of_candidates {DB : Type} (B : Backend DB) (P : Project)
  (tables : list string) (app_labels : list string) :
  manifest_of B P tables app_labels =
  map (on_values (filter (model_installed B tables))) (candidates P app_labels).
Proof. apply (OrderedDict_map (filter (model_installed B tables))). Qed.

Lemma in_chain_values {V : Type} (d : list (string * list V)) (x : V) :
  In x (chain_values d) <-> exists item, In item d /\ In x (snd item).
Proof.
  unfold chain_values. rewrite in_concat. split.
  - intros [l [Hl Hx]]. apply in_map_iff in Hl as [item [<- Hitem]]. eauto.
  - intros [item [Hitem Hx]]. exists (snd item). split; [now apply in_map | exact Hx].
Qed.

Lemma model_installed_spec {DB : Type} (B : Backend DB) (tables : list string)
  (m : Model) :
  model_installed B tables m = true <->
  ~ In (table_name_converter B (db_table m)) tables /\
  (forall base, auto_created m = Some base ->
     ~ In (table_name_converter B base) tables).
Proof.
  unfold model_installed. rewrite negb_true_iff, orb_false_iff.
  destruct (auto_created m) as [base |].
  - rewrite <- !not_true_iff_false, !in_str_iff. split.
    + intros [H1 H2]. split; [exact H1 |]. intros b Hb. now inversion Hb; subst.
    + intros [H1 H2]. split; [exact H1 | now apply H2].
  - rewrite <- not_true_iff_false, in_str_iff. split.
    + intros [H1 _]. split; [exact H1 | discriminate].
    + intros [H1 _]. split; [exact H1 | reflexivity].
Qed.

Lemma in_manifest_iff {DB : Type} (B : Backend DB) (P : Project)
  (tables : list string) (app_labels : list string) (m : Model) :
  In m (chain_values (manifest_of B P tables app_labels)) <->
  In m (chain_values (candidates P app_labels)) /\
  model_installed B tables m = true.
Proof.
  rewrite manifest_of_candidates, !in_chain_values. split.
  - intros [item [Hitem Hm]]. apply in_map_iff in Hitem as [item0 [<- Hitem0]].
    simpl in Hm. apply filter_In in Hm as [Hm Hinst]. eauto.
  - intros [[item [Hitem Hm]] Hinst].
    exists (on_values (filter (model_installed B tables)) item). split.
    + now apply in_map.
    + simpl. now apply filter_In.
Qed.

(** ** Loops *)

Section Loops.

Context {DB : Type}.

Lemma bind_ext {A C : Type} (m : M DB A) (f g : A -> M DB C) d :
  (forall a d1, f a d1 = g a d1) -> bind m f d = bind m g d.
Proof.
  intro H. unfold bind. destruct (m d) as [[l1 d1] [e | a]]; [reflexivity |].
  now rewrite H.
Qed.

Lemma bind_ext_both {A C : Type} (m m' : M DB A) (f g : A -> M DB C) d :
  m d = m' d -> (forall a d1, f a d1 = g a d1) -> bind m f d = bind m' g d.
Proof.
  intros Hm H. unfold bind. rewrite Hm.
  destruct (m' d) as [[l1 d1] [e | a]]; [reflexivity |]. now rewrite H.
Qed.

Lemma bind_ret_l {A C : Type} (a : A) (f : A -> M DB C) d :
  bind (ret a) f d = f a d.
Proof. unfold bind, ret. now destruct (f a d) as [[l2 d2] r]. Qed.

Lemma bind_assoc {A C E : Type} (m : M DB A) (f : A -> M DB C)
  (g : C -> M DB E) d :
  bind (bind m f) g d = bind m (fun a => bind (f a) g) d.
Proof.
  unfold bind. destruct (m d) as [[l1 d1] [e | a]]; [reflexivity |].
  destruct (f a d1) as [[l2 d2] [e | c]]; [reflexivity |].
  destruct (g c d2) as [[l3 d3] r]. now rewrite app_assoc.
Qed.

Lemma foldM_app {A S : Type} (body : A -> S -> M DB S) (l1 l2 : list A) s d :
  foldM body (l1 ++ l2) s d =
  bind (foldM body l1 s) (fun s1 => foldM body l2 s1) d.
Proof.
  revert s d. induction l1 as [| a l1 IH]; intros s d; simpl.
  - now rewrite bind_ret_l.
  - rewrite bind_assoc. apply bind_ext. intros s1 d1. apply IH.
Qed.

Lemma foldM_map {A A' S : Type} (h : A -> A') (body : A' -> S -> M DB S)
  (l : list A) s d :
  foldM body (map h l) s d = foldM (fun a => body (h a)) l s d.
Proof.
  revert s d. induction l as [| a l IH]; intros s d; simpl; [reflexivity |].
  apply bind_ext. intros s1 d1. apply IH.
Qed.

Lemma foldM_nested {S : Type} (body : string -> Model -> S -> M DB S)
  (manifest : list (string * list Model)) s d :
  foldM (fun item st => foldM (body (fst item)) (snd item) st) manifest s d =
  foldM (fun visit st => body (fst visit) (snd visit) st) (visits manifest) s d.
Proof.
  revert s d. induction manifest as [| item rest IH]; intros s d; simpl;
    [reflexivity |].
  rewrite foldM_app. apply bind_ext_both.
  - now rewrite foldM_map.
  - intros s1 d1. apply IH.
Qed.

Lemma visits_models (manifest : list (string * list Model)) :
  map snd (visits manifest) = chain_values manifest.
Proof.
  unfold visits, chain_values.
  induction manifest as [| item rest IH]; simpl; [reflexivity |].
  rewrite map_app, IH, map_map. simpl. now rewrite map_id.
Qed.

End Loops.

Lemma flat_map_nil_Forall {A C : Type} (Q : A -> Prop) (f : A -> list C)
  (l : list A) :
  Forall Q l -> (forall a, Q a -> f a = []) -> flat_map f l = [].
Proof.
  intros H Hf. induction H as [| a l Ha Hl IH]; simpl; [reflexivity |].
  now rewrite (Hf a Ha), IH.
Qed.

Lemma set_add_in (m x : Model) (s : list Model) :
  In x (set_add m s) <-> In x s \/ x = m.
Proof.
  unfold set_add. destruct (in_dec Model_eq_dec m s) as [Hin | Hnin].
  - split; [now left |]. intros [H | ->]; assumption.
  - rewrite in_app_iff. simpl. split; intros [H | H]; auto.
    + destruct H as [<- | []]. now right.
Qed.

Lemma py_set_in (l : list Model) (x : Model) : In x (py_set l) <-> In x l.
Proof.
  unfold py_set.
  assert (H : forall acc, In x (fold_left (fun s m => set_add m s) l acc) <->
                          In x acc \/ In x l).
  { induction l as [| m l IH]; intro acc; simpl; [tauto |].
    rewrite IH, set_add_in. intuition (subst; auto). }
  rewrite H. simpl. tauto.
Qed.

Lemma mem_iff (m : Model) (s : list Model) : mem m s = true <-> In m s.
Proof.
  unfold mem. destruct (in_dec Model_eq_dec m s); split; auto; discriminate.
Qed.

(** ** The table creation loop *)

Section Sync.

Context {DB : Type}.
Variable B : Backend DB.
Variable P : Project.
Variable opts : Options.

Lemma create_tables_visits (manifest : list (string * list Model)) st d :
  create_tables B opts manifest st d = foldM (create_visit B opts) (visits manifest) st d.
Proof. unfold create_tables. apply (foldM_nested (create_table B opts)). Qed.

Lemma create_table_skip (app_name : string) (m : Model) st d :
  eligible m = false -> create_table B opts app_name m st d = ([], d, inr st).
Proof.
  unfold eligible, create_table. intro H. apply negb_false_iff in H.
  now rewrite H.
Qed.

Lemma create_table_run (app_name : string) (m : Model) st d :
  eligible m = true ->
  create_table B opts app_name m st d =
  match create_model B m d with
  | (d1, inr deferred) =>
      ((creating_messages opts) app_name m ++
       [ECreateModel m (Some deferred); ESchemaEditorExit []],
       d1, inr (fst st ++ deferred, set_add m (snd st)))
  | (d1, inl e) =>
      ((creating_messages opts) app_name m ++ [ECreateModel m None], d1, inl e)
  end.
Proof.
  unfold eligible, create_table. intro H. apply negb_true_iff in H. rewrite H.
  unfold bind, tell, editor_create_model, creating_messages, ret.
  destruct (create_model B m d) as [d1 [e | deferred]]; simpl;
    now rewrite <- !app_assoc.
Qed.

Lemma produced_app (l1 l2 : list Event) :
  produced (l1 ++ l2) = produced l1 ++ produced l2.
Proof. apply flat_map_app. Qed.

Lemma produced_say (b : bool) (msg : string) : produced (say b msg) = [].
Proof. now destruct b. Qed.

Lemma produced_creating (app_name : string) (m : Model) :
  produced ((creating_messages opts) app_name m) = [].
Proof. unfold creating_messages. now rewrite produced_app, !produced_say. Qed.

Lemma create_event_creating (models : list Model) (app_name : string) (m : Model) :
  Forall (create_event models) ((creating_messages opts) app_name m).
Proof.
  unfold creating_messages. apply Forall_app. split; apply Forall_say; exact I.
Qed.

Lemma create_event_mono (models models' : list Model) (e : Event) :
  incl models models' -> create_event models e -> create_event models' e.
Proof.
  intros Hincl. destruct e; simpl; auto. intros [H1 H2]. auto.
Qed.

Lemma create_loop_spec (vs : list (string * Model)) :
  forall st d,
    Forall (create_event (map snd vs)) (log_of (foldM (create_visit B opts) vs st d)) /\
    forall st', out_of (foldM (create_visit B opts) vs st d) = inr st' ->
      fst st' = fst st ++ produced (log_of (foldM (create_visit B opts) vs st d)) /\
      forall x, In x (snd st') <->
                In x (snd st) \/ (In x (map snd vs) /\ eligible x = true).
Proof.
  induction vs as [| [app_name m] vs IH]; intros st d.
  - simpl. split; [constructor |]. intros st' H. inversion H; subst.
    rewrite app_nil_r. split; [reflexivity | tauto].
  - change (foldM (create_visit B opts) ((app_name, m) :: vs) st d)
      with (bind (create_table B opts app_name m st)
                 (fun s1 => foldM (create_visit B opts) vs s1) d).
    assert (Hweak : forall l, Forall (create_event (map snd vs)) l ->
                              Forall (create_event (map snd ((app_name, m) :: vs))) l).
    { intros l. apply Forall_impl. intro e. apply create_event_mono.
      intros x Hx. now right. }
    destruct (eligible m) eqn:Hel.
    + unfold bind. rewrite (create_table_run _ _ _ _ Hel).
      destruct (create_model B m d) as [d1 [e | deferred]].
      * split; [| discriminate].
        apply Forall_app. split; [apply create_event_creating |].
        repeat constructor; simpl; auto.
      * destruct (IH (fst st ++ deferred, set_add m (snd st)) d1) as [IHlog IHout].
        destruct (foldM (create_visit B opts) vs (fst st ++ deferred, set_add m (snd st)) d1)
          as [[l2 d2] r2]. unfold log_of, out_of in *. simpl in *. split.
        -- apply Forall_app. split; [| now apply Hweak].
           apply Forall_app. split; [apply create_event_creating |].
           repeat constructor; simpl; auto.
        -- intros st' Hst'. destruct (IHout st' Hst') as [Hq Hc]. split.
           ++ rewrite Hq, !produced_app, produced_creating. simpl.
              now rewrite app_nil_r, app_assoc.
           ++ intro x. rewrite Hc, set_add_in. split.
              ** intros [[H | ->] | [H1 H2]]; auto.
              ** intros [H | [[<- | H1] H2]]; auto.
    + unfold bind. rewrite (create_table_skip _ _ _ _ Hel).
      destruct (IH st d) as [IHlog IHout].
      destruct (foldM (create_visit B opts) vs st d) as [[l2 d2] r2].
      unfold log_of, out_of in *. simpl in *. split; [now apply Hweak |].
      intros st' Hst'. destruct (IHout st' Hst') as [Hq Hc]. split; [exact Hq |].
      intro x. rewrite Hc. split.
      * intros [H | [H1 H2]]; auto.
      * intros [H | [[<- | H1] H2]]; auto. congruence.
Qed.

(** ** The creation transaction *)

Lemma executed_deferred_app (l1 l2 : list Event) :
  executed_deferred (l1 ++ l2) = executed_deferred l1 ++ executed_deferred l2.
Proof. apply flat_map_app. Qed.

Lemma executed_deferred_map (q : list string) :
  executed_deferred (map EExecDeferred q) = q.
Proof. induction q as [| s q IH]; simpl; [reflexivity | now rewrite IH]. Qed.

Lemma run_deferred_sql_log (q : list string) :
  forall d,
    exists k,
      log_of (run_deferred_sql B q d) = map EExecDeferred (firstn k q) /\
      (forall u, out_of (run_deferred_sql B q d) = inr u -> firstn k q = q).
Proof.
  unfold run_deferred_sql, for_each.
  induction q as [| s q IH]; intro d.
  - exists 0. split; [reflexivity | reflexivity].
  - simpl foldM. unfold bind, call.
    destruct (execute B s d) as [d1 [e |]].
    + exists 1. split; [reflexivity | discriminate].
    + destruct (IH d1) as [k [Hlog Hout]].
      destruct (foldM _ q tt d1) as [[l2 d2] r2].
      unfold log_of, out_of in *. simpl in *.
      exists (S k). split; [now rewrite Hlog |].
      intros u Hu. simpl. now rewrite (Hout u Hu).
Qed.

Lemma create_phase_shape (manifest : list (string * list Model)) (d : DB) :
  exists Lc Ld,
    log_of (create_phase B opts manifest d) =
      EAtomicEnter (can_rollback_ddl B) :: Lc ++ Ld /\
    Forall (create_event (chain_values manifest)) Lc /\
    Forall deferred_event Ld /\
    (exists k, executed_deferred Ld = firstn k (produced Lc)) /\
    (forall created, out_of (create_phase B opts manifest d) = inr created ->
       executed_deferred Ld = produced Lc /\
       forall x, In x created <->
                 In x (chain_values manifest) /\ eligible x = true).
Proof.
  unfold create_phase, atomic, bind. rewrite create_tables_visits.
  destruct (create_loop_spec (visits manifest) ([], []) d) as [Hlog Hout].
  rewrite visits_models in Hlog, Hout.
  destruct (foldM (create_visit B opts) (visits manifest) ([], []) d) as [[Lc d1] [e | st]];
    unfold log_of, out_of, tell in *; cbn [fst snd] in *.
  - exists Lc, [EAtomicExit Rollback].
    split; [reflexivity |]. split; [exact Hlog |].
    split; [repeat constructor |]. split; [now exists 0 | discriminate].
  - destruct (Hout st eq_refl) as [Hq Hc]. cbn [app] in Hq.
    destruct (run_deferred_sql_log (fst st) d1) as [k [Hk Hall]].
    set (msg := say (1 <=? verbosity opts)%Z ("    Running deferred SQL..." +++ nl)).
    assert (Hmsg : executed_deferred msg = []).
    { subst msg. now destruct (1 <=? verbosity opts)%Z. }
    assert (Hdef : forall q, Forall deferred_event (map EExecDeferred q)).
    { intro q. apply Forall_forall. intros ev Hev.
      apply in_map_iff in Hev as [s [<- _]]. exact I. }
    destruct (run_deferred_sql B (fst st) d1) as [[l3 d3] [e | u]];
      unfold log_of, out_of, ret in *; cbv beta iota; cbn [fst snd] in *.
    + exists Lc, (msg ++ l3 ++ [EAtomicExit Rollback]).
      split; [now rewrite <- !app_assoc |]. split; [exact Hlog |].
      split; [| split; [| discriminate]].
      * apply Forall_app. split; [apply Forall_say; exact I |].
        apply Forall_app. split; [| repeat constructor].
        rewrite Hk. apply Hdef.
      * exists k. rewrite !executed_deferred_app, Hmsg, Hk, executed_deferred_map.
        cbn. now rewrite app_nil_r, Hq.
    + assert (Hexec :
        executed_deferred (msg ++ l3 ++ [EAtomicExit Commit]) = produced Lc).
      { rewrite !executed_deferred_app, Hmsg, Hk, executed_deferred_map.
        cbn. now rewrite app_nil_r, (Hall u eq_refl), Hq. }
      exists Lc, (msg ++ l3 ++ [EAtomicExit Commit]).
      split; [now rewrite app_nil_r, <- !app_assoc |]. split; [exact Hlog |].
      split; [| split].
      * apply Forall_app. split; [apply Forall_say; exact I |].
        apply Forall_app. split; [| repeat constructor].
        rewrite Hk. apply Hdef.
      * exists (List.length (produced Lc)). now rewrite Hexec, firstn_all.
      * intros created Hcreated. inversion Hcreated; subst.
        split; [exact Hexec |]. intro x. rewrite Hc. simpl. tauto.
Qed.

(** ** Custom SQL *)

Lemma foldM_ext {A S : Type} (body body' : A -> S -> M DB S) (l : list A) :
  (forall a s d, body a s d = body' a s d) ->
  forall s d, foldM body l s d = foldM body' l s d.
Proof.
  intro H. induction l as [| a l IH]; intros s d; simpl; [reflexivity |].
  apply bind_ext_both; [apply H | intros; apply IH].
Qed.

Lemma custom_sql_phase_visits (manifest : list (string * list Model))
  (created_models : list Model) d :
  custom_sql_phase B opts manifest created_models d =
  for_each (visits manifest) ((install_visit B opts) created_models) d.
Proof.
  unfold custom_sql_phase, for_each.
  rewrite <- (foldM_nested
                (fun app_name m (_ : unit) =>
                   install_custom_sql B opts created_models app_name m)).
  apply foldM_ext. intros item [] d1. reflexivity.
Qed.

(** The trace of the statements of one model: all of them, or the
    statements up to the first one that raises. *)
Lemma run_custom_sql_log (m : Model) (sqls : list string) :
  forall d,
    let r := for_each sqls (fun sql => call (EExecCustom m sql) (execute B sql)) d in
    (out_of r = inr tt /\ log_of r = map (EExecCustom m) sqls) \/
    (exists k e sql d0,
       out_of r = inl e /\
       log_of r = map (EExecCustom m) (firstn (S k) sqls) /\
       nth_error sqls k = Some sql /\
       execute B sql d0 = (db_of r, Some e)).
Proof.
  unfold for_each.
  induction sqls as [| s sqls IH]; intro d; cbv zeta.
  - left. split; reflexivity.
  - simpl foldM. unfold bind, call.
    destruct (execute B s d) as [d1 [e |]] eqn:Hex.
    + right. exists 0, e, s, d. repeat split. exact Hex.
    + specialize (IH d1). cbv zeta in IH.
      destruct (foldM _ sqls tt d1) as [[l2 d2] r2].
      unfold log_of, out_of, db_of in *. cbn [fst snd] in *.
      destruct IH as [[Hout Hlog] | [k [e [sql [d0 [Hout [Hlog [Hnth Hex']]]]]]]].
      * left. split; [exact Hout |]. cbn. now rewrite Hlog.
      * right. exists (S k), e, sql, d0. split; [exact Hout |].
        split; [cbn; now rewrite Hlog |]. split; [exact Hnth | exact Hex'].
Qed.

Lemma install_custom_sql_block (created_models : list Model)
  (visit : string * Model) (d : DB) :
  out_of ((install_visit B opts) created_models visit d) = inr tt /\
  (install_block B opts) created_models visit (log_of ((install_visit B opts) created_models visit d)).
Proof.
  destruct visit as [app_name m].
  unfold install_visit, install_custom_sql, install_block. cbn [fst snd].
  destruct (mem m created_models); [| split; reflexivity].
  destruct (custom_sql_for_model B m) as [| first rest] eqn:Hsql;
    [split; reflexivity |].
  cbn [nonempty].
  set (msg := say (2 <=? verbosity opts)%Z
                  ("    Installing custom SQL for " +++ app_name +++ "." +++
                   object_name m +++ " model" +++ nl)).
  pose proof (run_custom_sql_log m (first :: rest) d) as Hrun. cbv zeta in Hrun.
  unfold bind, tell, try_except, atomic.
  destruct (for_each (first :: rest)
              (fun sql => call (EExecCustom m sql) (execute B sql)) d)
    as [[l1 d1] [e | []]];
    unfold log_of, out_of, db_of in *; cbn [fst snd] in *.
  - destruct Hrun as [[Hout _] | [k [e' [sql [d0 [Hout [Hlog [Hnth Hex]]]]]]]];
      [discriminate |].
    inversion Hout; subst e'. split; [reflexivity |].
    exists (firstn k rest),
      (EAtomicExit Rollback
       :: EStderr (custom_sql_failure_message app_name m e)
       :: (if show_traceback opts then [ETraceback e] else [])).
    split.
    + rewrite Hlog. cbn [firstn map app]. now rewrite <- !app_assoc.
    + right. exists k, e, sql, d0, d1. repeat split; assumption.
  - destruct Hrun as [[_ Hlog] | [k [e' [sql [d0 [Hout _]]]]]]; [| discriminate].
    split; [reflexivity |].
    exists rest, [EAtomicExit Commit]. split; [now rewrite Hlog | now left].
Qed.

Lemma custom_sql_phase_blocks (manifest : list (string * list Model))
  (created_models : list Model) (d : DB) :
  out_of (custom_sql_phase B opts manifest created_models d) = inr tt /\
  exists blocks,
    log_of (custom_sql_phase B opts manifest created_models d) = List.concat blocks /\
    Forall2 ((install_block B opts) created_models) (visits manifest) blocks.
Proof.
  rewrite custom_sql_phase_visits. unfold for_each.
  generalize (visits manifest) as vs. intro vs. revert d.
  induction vs as [| visit vs IH]; intro d.
  - split; [reflexivity |]. exists []. split; [reflexivity | constructor].
  - change (foldM (fun a (_ : unit) => (install_visit B opts) created_models a)
                  (visit :: vs) tt d)
      with (bind ((install_visit B opts) created_models visit)
                 (fun s1 => foldM (fun a (_ : unit) => (install_visit B opts) created_models a)
                                  vs s1) d).
    rewrite bind_out, bind_log.
    destruct (install_custom_sql_block created_models visit d) as [Hout Hblock].
    rewrite Hout.
    destruct (IH (db_of ((install_visit B opts) created_models visit d)))
      as [IHout [blocks [IHlog IHblocks]]].
    split; [exact IHout |].
    exists (log_of ((install_visit B opts) created_models visit d) :: blocks).
    split; [cbn; now rewrite IHlog | now constructor].
Qed.

Lemma custom_sql_phase_events (manifest : list (string * list Model))
  (created_models : list Model) :
  emits (install_event (fun m => In m created_models))
        (custom_sql_phase B opts manifest created_models).
Proof.
  unfold custom_sql_phase. apply emits_for_each. intro item.
  apply emits_for_each. intro m. unfold install_custom_sql.
  destruct (mem m created_models) eqn:Hmem; [| apply emits_ret].
  apply mem_iff in Hmem.
  destruct (nonempty (custom_sql_for_model B m)).
  - apply emits_bind; [apply emits_tell, Forall_say; exact I |]. intros _.
    apply emits_try_except.
    + apply emits_atomic; try exact I; [intros; exact I |].
      apply emits_for_each. intro sql. apply emits_call. exact Hmem.
    + intro e. apply emits_tell. constructor; [exact I |].
      destruct (show_traceback opts); repeat constructor.
  - apply emits_tell, Forall_say. exact I.
Qed.

Lemma load_fixtures_events (C : Model -> Prop) (app_labels : list string) :
  emits (install_event C) (load_fixtures B opts app_labels).
Proof.
  unfold load_fixtures. destruct (load_initial_data opts); [| apply emits_ret].
  apply emits_for_each. intro a. apply emits_call. exact I.
Qed.

(** ** [sync_apps] as a whole *)

Lemma after_creation_run (manifest : list (string * list Model))
  (app_labels : list string) (created_models : list Model) (d : DB) :
  Forall (install_event (fun m => In m created_models))
         (log_of ((after_creation B opts) manifest app_labels created_models d)) /\
  (forall c, out_of ((after_creation B opts) manifest app_labels created_models d) = inr c ->
     c = created_models) /\
  (load_initial_data opts = false ->
   out_of ((after_creation B opts) manifest app_labels created_models d) =
   inr created_models).
Proof.
  split; [| split].
  - unfold after_creation.
    apply emits_bind; [apply emits_tell, Forall_say; exact I |]. intros _.
    apply emits_bind; [apply custom_sql_phase_events |]. intros _.
    apply emits_bind; [apply load_fixtures_events |]. intros _.
    apply emits_ret.
  - intros c. unfold after_creation, bind, tell, ret, out_of.
    destruct (custom_sql_phase B opts manifest created_models d)
      as [[l2 d2] [e | u]]; [discriminate |].
    destruct (load_fixtures B opts app_labels d2) as [[l3 d3] [e | u']];
      [discriminate |].
    cbn [snd]. intro H. now inversion H.
  - intro Hload. unfold after_creation, bind, tell, ret.
    destruct (custom_sql_phase_blocks manifest created_models d) as [Hcout _].
    destruct (custom_sql_phase B opts manifest created_models d)
      as [[l2 d2] r2]. unfold out_of in Hcout. cbn [snd] in Hcout. subst r2.
    unfold load_fixtures. rewrite Hload. reflexivity.
Qed.

Lemma sync_apps_shape (app_labels : list string) (d : DB) :
  exists tail,
    log_of (sync_apps B P opts app_labels d) =
      EPreMigrate (py_set (chain_values ((the_manifest B P) app_labels d)))
      :: (creating_tables opts)
      ++ log_of (create_phase B opts ((the_manifest B P) app_labels d) d) ++ tail /\
    Forall (install_event
              (fun m => exists created,
                 out_of (create_phase B opts ((the_manifest B P) app_labels d) d) =
                   inr created /\ In m created)) tail /\
    (forall created, out_of (sync_apps B P opts app_labels d) = inr created ->
       out_of (create_phase B opts ((the_manifest B P) app_labels d) d) = inr created) /\
    (forall created,
       out_of (create_phase B opts ((the_manifest B P) app_labels d) d) = inr created ->
       load_initial_data opts = false ->
       out_of (sync_apps B P opts app_labels d) = inr created).
Proof.
  set (manifest := (the_manifest B P) app_labels d).
  change (sync_apps B P opts app_labels d)
    with ((tell [EPreMigrate (py_set (chain_values manifest))] ;;
           tell (creating_tables opts) ;;
           created_models <- create_phase B opts manifest ;;
           (after_creation B opts) manifest app_labels created_models) d).
  unfold bind, tell.
  destruct (create_phase B opts manifest d) as [[lc dc] [e | created]].
  - exists []. unfold log_of, out_of. cbn [fst snd].
    split; [now rewrite app_nil_r |]. split; [constructor |].
    split; intros; discriminate.
  - destruct (after_creation_run manifest app_labels created dc)
      as [Hev [Hout Hload]].
    destruct ((after_creation B opts) manifest app_labels created dc) as [[l2 d2] r2].
    unfold log_of, out_of in *. cbn [fst snd] in *.
    exists l2. split; [reflexivity |]. split; [| split].
    + eapply Forall_impl; [| exact Hev].
      intros ev. destruct ev; simpl; auto. intro H. exists created. auto.
    + intros c Hc. now rewrite (Hout c Hc).
    + intros c Hc. inversion Hc; subst c. exact Hload.
Qed.

Lemma create_event_classes (models : list Model) (e : Event) :
  create_event models e ->
  is_exec_deferred e = false /\ is_exec_custom e = false /\
  is_migrate e = false /\
  (forall deferred, e = ESchemaEditorExit deferred -> deferred = []) /\
  (forall m r, e = ECreateModel m r -> eligible m = true /\ In m models).
Proof.
  destruct e; simpl; intro H; try contradiction;
    repeat split; try reflexivity; try discriminate;
    intros; match goal with E : _ = _ |- _ => inversion E; subst end;
    tauto.
Qed.

Lemma deferred_event_classes (e : Event) :
  deferred_event e ->
  is_create e = false /\ is_exec_custom e = false /\ is_migrate e = false /\
  (forall deferred, e <> ESchemaEditorExit deferred).
Proof.
  destruct e; simpl; intro H; try contradiction;
    repeat split; try reflexivity; discriminate.
Qed.

Lemma install_event_classes (C : Model -> Prop) (e : Event) :
  install_event C e ->
  is_create e = false /\ is_exec_deferred e = false /\ is_migrate e = false /\
  (forall deferred, e <> ESchemaEditorExit deferred) /\
  (forall m sql, e = EExecCustom m sql -> C m).
Proof.
  destruct e; simpl; intro H; try contradiction;
    repeat split; try reflexivity; try discriminate.
  intros m0 sql0 E. now inversion E; subst.
Qed.

Lemma produced_none (l : list Event) :
  Forall (fun e => is_create e = false) l -> produced l = [].
Proof.
  intro H. apply (flat_map_nil_Forall _ _ _ H).
  intros e He. destruct e; try reflexivity. discriminate.
Qed.

Lemma executed_deferred_none (l : list Event) :
  Forall (fun e => is_exec_deferred e = false) l -> executed_deferred l = [].
Proof.
  intro H. apply (flat_map_nil_Forall _ _ _ H).
  intros e He. destruct e; try reflexivity. discriminate.
Qed.

Lemma creating_tables_stdout (Q : Event -> Prop) :
  (forall msg, Q (EStdout msg)) -> Forall Q (creating_tables opts).
Proof. intro H. apply Forall_say, H. Qed.

(** C5: in every run of [sync_apps], whether it completes or raises, the
    trace splits in two: no deferred statement is executed in the first
    part and no table is created in the second.  The deferred statements
    that are executed are, in order, a prefix of the statements the table
    creations produced, in the order they produced them; when [sync_apps]
    returns they are all of them. *)
Theorem C5_tables_before_deferred_sql (app_labels : list string) (d : DB) :
  exists before after,
    log_of (sync_apps B P opts app_labels d) = before ++ after /\
    Forall (fun e => is_exec_deferred e = false) before /\
    Forall (fun e => is_create e = false) after /\
    (exists k,
       executed_deferred (log_of (sync_apps B P opts app_labels d)) =
       firstn k (produced (log_of (sync_apps B P opts app_labels d)))) /\
    (forall created, out_of (sync_apps B P opts app_labels d) = inr created ->
       executed_deferred (log_of (sync_apps B P opts app_labels d)) =
       produced (log_of (sync_apps B P opts app_labels d))).
Proof.
  destruct (sync_apps_shape app_labels d) as [tail [Hlog [Htail [Hout _]]]].
  destruct (create_phase_shape ((the_manifest B P) app_labels d) d)
    as [Lc [Ld [Hcp [HLc [HLd [[k Hk] Hall]]]]]].
  rewrite Hcp in Hlog.
  set (before := EPreMigrate (py_set (chain_values ((the_manifest B P) app_labels d)))
                 :: (creating_tables opts) ++ EAtomicEnter (can_rollback_ddl B) :: Lc).
  assert (Hsplit : log_of (sync_apps B P opts app_labels d) = before ++ Ld ++ tail).
  { rewrite Hlog. unfold before. cbn [app].
    now rewrite <- !app_assoc. }
  assert (Hbefore : Forall (fun e => is_exec_deferred e = false) before).
  { unfold before. constructor; [reflexivity |].
    apply Forall_app. split; [now apply creating_tables_stdout |].
    constructor; [reflexivity |].
    eapply Forall_impl; [| exact HLc]. intros e He.
    now apply (create_event_classes _ _ He). }
  assert (Hafter : Forall (fun e => is_create e = false) (Ld ++ tail)).
  { apply Forall_app. split.
    - eapply Forall_impl; [| exact HLd]. intros e He.
      now apply (deferred_event_classes _ He).
    - eapply Forall_impl; [| exact Htail]. intros e He.
      now apply (install_event_classes _ _ He). }
  assert (Hprod : produced (log_of (sync_apps B P opts app_labels d)) = produced Lc).
  { rewrite Hsplit, produced_app, (produced_none _ Hafter), app_nil_r.
    unfold before. cbn [produced flat_map app].
    fold (produced ((creating_tables opts) ++ EAtomicEnter (can_rollback_ddl B) :: Lc)).
    rewrite produced_app.
    rewrite (produced_none (creating_tables opts)) by (now apply creating_tables_stdout).
    reflexivity. }
  assert (Hexec : executed_deferred (log_of (sync_apps B P opts app_labels d)) =
                  executed_deferred Ld).
  { rewrite Hsplit, executed_deferred_app, (executed_deferred_none _ Hbefore).
    rewrite executed_deferred_app.
    rewrite (executed_deferred_none tail); [now rewrite app_nil_r |].
    eapply Forall_impl; [| exact Htail]. intros e He.
    now apply (install_event_classes _ _ He). }
  exists before, (Ld ++ tail).
  split; [exact Hsplit |]. split; [exact Hbefore |]. split; [exact Hafter |].
  rewrite Hprod, Hexec. split; [now exists k |].
  intros created Hcreated. apply (Hall created). now apply Hout.
Qed.

Lemma count_occ_firstn (l : list string) (k : nat) (x : string) :
  count_occ string_dec (firstn k l) x <= count_occ string_dec l x.
Proof.
  revert k. induction l as [| y l IH]; intro k.
  - now rewrite firstn_nil.
  - destruct k as [| k]; simpl; [lia |].
    specialize (IH k). destruct (string_dec y x); lia.
Qed.

(** C10: in the creation transaction every schema editor is left with an
    empty list of deferred statements, its statements having been moved to
    the queue of the invocation.  No deferred statement is executed more
    often than the table creations produced it, and when the transaction
    completes the executed statements are exactly the produced ones: each
    one is executed as often as it was produced, none twice and none
    dropped. *)
Theorem C10_deferred_sql_exactly_once (manifest : list (string * list Model))
  (d : DB) :
  (forall deferred,
     In (ESchemaEditorExit deferred) (log_of (create_phase B opts manifest d)) ->
     deferred = []) /\
  (forall sql,
     count_occ string_dec
       (executed_deferred (log_of (create_phase B opts manifest d))) sql <=
     count_occ string_dec
       (produced (log_of (create_phase B opts manifest d))) sql) /\
  (forall created, out_of (create_phase B opts manifest d) = inr created ->
     executed_deferred (log_of (create_phase B opts manifest d)) =
     produced (log_of (create_phase B opts manifest d)) /\
     forall sql,
       count_occ string_dec
         (executed_deferred (log_of (create_phase B opts manifest d))) sql =
       count_occ string_dec
         (produced (log_of (create_phase B opts manifest d))) sql).
Proof.
  destruct (create_phase_shape manifest d)
    as [Lc [Ld [Hcp [HLc [HLd [[k Hk] Hall]]]]]].
  assert (Hprod : produced (log_of (create_phase B opts manifest d)) = produced Lc).
  { rewrite Hcp. cbn [produced flat_map app]. fold (produced (Lc ++ Ld)).
    rewrite produced_app, (produced_none Ld), app_nil_r; [reflexivity |].
    eapply Forall_impl; [| exact HLd]. intros e He.
    now apply (deferred_event_classes _ He). }
  assert (Hexec : executed_deferred (log_of (create_phase B opts manifest d)) =
                  executed_deferred Ld).
  { rewrite Hcp. cbn [executed_deferred flat_map app].
    fold (executed_deferred (Lc ++ Ld)).
    rewrite executed_deferred_app, (executed_deferred_none Lc); [reflexivity |].
    eapply Forall_impl; [| exact HLc]. intros e He.
    now apply (create_event_classes _ _ He). }
  split; [| split].
  - intros deferred Hin. rewrite Hcp in Hin.
    destruct Hin as [Hin | Hin]; [discriminate |].
    apply in_app_or in Hin as [Hin | Hin].
    + rewrite Forall_forall in HLc.
      now apply (create_event_classes _ _ (HLc _ Hin)).
    + rewrite Forall_forall in HLd.
      now destruct (proj2 (proj2 (proj2 (deferred_event_classes _ (HLd _ Hin))))
                      deferred).
  - intro sql. rewrite Hprod, Hexec, Hk. apply count_occ_firstn.
  - intros created Hcreated. destruct (Hall created Hcreated) as [Heq _].
    rewrite Hprod, Hexec, Heq. split; reflexivity.
Qed.

(** C4, as amended: a model is in the manifest if and only if it is one of
    the models of the synchronised applications and neither the name of
    its table nor, when it was created automatically for another model,
    the name of that model's table is among the introspected tables;
    proxy and unmanaged models are in the manifest under the same rule.
    No table is created and no custom SQL is run for a proxy or unmanaged
    model, and none is in the set [sync_apps] returns: the models created
    are the managed, non-proxy models of the manifest. *)
Theorem C4_manifest_membership (app_labels : list string) (d : DB) :
  (forall m,
     In m (chain_values ((the_manifest B P) app_labels d)) <->
     In m (chain_values (candidates P app_labels)) /\
     ~ In (table_name_converter B (db_table m)) (table_names B d) /\
     (forall base, auto_created m = Some base ->
        ~ In (table_name_converter B base) (table_names B d))) /\
  (forall m r, In (ECreateModel m r) (log_of (sync_apps B P opts app_labels d)) ->
     proxy m = false /\ managed m = true /\
     In m (chain_values ((the_manifest B P) app_labels d))) /\
  (forall m sql, In (EExecCustom m sql) (log_of (sync_apps B P opts app_labels d)) ->
     proxy m = false /\ managed m = true /\
     In m (chain_values ((the_manifest B P) app_labels d))) /\
  (forall created, out_of (sync_apps B P opts app_labels d) = inr created ->
     forall m, In m created <->
               In m (chain_values ((the_manifest B P) app_labels d)) /\
               proxy m = false /\ managed m = true).
Proof.
  assert (Hel : forall m, eligible m = true <-> proxy m = false /\ managed m = true).
  { intro m. unfold eligible. rewrite negb_true_iff, orb_false_iff, negb_false_iff.
    tauto. }
  destruct (sync_apps_shape app_labels d) as [tail [Hlog [Htail [Hout _]]]].
  destruct (create_phase_shape ((the_manifest B P) app_labels d) d)
    as [Lc [Ld [Hcp [HLc [HLd [_ Hall]]]]]].
  rewrite Hcp in Hlog. rewrite Forall_forall in HLc, HLd, Htail.
  assert (Hwhere : forall e,
            In e (log_of (sync_apps B P opts app_labels d)) ->
            is_create e = true \/ is_exec_custom e = true ->
            In e Lc \/ In e tail).
  { intros e Hin Hkind. rewrite Hlog in Hin.
    destruct Hin as [<- | Hin]; [destruct Hkind; discriminate |].
    apply in_app_or in Hin as [Hin | Hin].
    { unfold creating_tables, say in Hin.
      destruct (1 <=? verbosity opts)%Z; [| destruct Hin].
      destruct Hin as [<- | []]. destruct Hkind; discriminate. }
    apply in_app_or in Hin as [Hin | Hin]; [| now right].
    destruct Hin as [<- | Hin]; [destruct Hkind; discriminate |].
    apply in_app_or in Hin as [Hin | Hin]; [now left |].
    destruct (deferred_event_classes _ (HLd _ Hin)) as [H1 [H2 _]].
    destruct Hkind; congruence. }
  split; [| split; [| split]].
  - intro m. unfold the_manifest.
    now rewrite in_manifest_iff, model_installed_spec.
  - intros m r Hin.
    destruct (Hwhere _ Hin (or_introl eq_refl)) as [H | H].
    + destruct (create_event_classes _ _ (HLc _ H)) as [_ [_ [_ [_ Hc]]]].
      destruct (Hc m r eq_refl) as [H1 H2]. apply Hel in H1. tauto.
    + now destruct (install_event_classes _ _ (Htail _ H)) as [Hc _].
  - intros m sql Hin.
    destruct (Hwhere _ Hin (or_intror eq_refl)) as [H | H].
    + now destruct (create_event_classes _ _ (HLc _ H)) as [_ [Hc _]].
    + destruct (install_event_classes _ _ (Htail _ H)) as [_ [_ [_ [_ Hc]]]].
      destruct (Hc m sql eq_refl) as [created [Hcreated Hm]].
      destruct (Hall created Hcreated) as [_ Hchar].
      apply Hchar in Hm. rewrite Hel in Hm. tauto.
  - intros created Hcreated m.
    destruct (Hall created (Hout created Hcreated)) as [_ Hchar].
    now rewrite Hchar, Hel.
Qed.



(** ** Running [sync_apps] again *)

Lemma create_loop_skip_all (vs : list (string * Model)) st d :
  (forall visit, In visit vs -> eligible (snd visit) = false) ->
  foldM (create_visit B opts) vs st d = ([], d, inr st).
Proof.
  induction vs as [| [app_name m] vs IH]; intro H; [reflexivity |].
  change (foldM (create_visit B opts) ((app_name, m) :: vs) st d)
    with (bind (create_table B opts app_name m st)
               (fun s1 => foldM (create_visit B opts) vs s1) d).
  unfold bind. rewrite create_table_skip by (apply (H (app_name, m)); now left).
  rewrite IH; [reflexivity |]. intros visit Hin. apply H. now right.
Qed.

Lemma create_phase_nothing_to_do (manifest : list (string * list Model)) (d : DB) :
  (forall m, In m (chain_values manifest) -> eligible m = false) ->
  create_phase B opts manifest d =
  (EAtomicEnter (can_rollback_ddl B)
   :: say (1 <=? verbosity opts)%Z ("    Running deferred SQL..." +++ nl)
   ++ [EAtomicExit Commit],
   d, inr []).
Proof.
  intro H. unfold create_phase, atomic, bind. rewrite create_tables_visits.
  rewrite create_loop_skip_all.
  - unfold tell, run_deferred_sql, for_each, ret. cbn [foldM fst snd app].
    unfold ret. now rewrite !app_nil_r.
  - intros visit Hin. apply H. rewrite <- visits_models. now apply in_map.
Qed.

Lemma model_installed_antitone (tables tables' : list string) (m : Model) :
  incl tables tables' ->
  model_installed B tables' m = true -> model_installed B tables m = true.
Proof.
  intros Hincl. rewrite !model_installed_spec. intros [H1 H2]. split.
  - intro H. apply H1, Hincl, H.
  - intros base Hbase H. apply (H2 base Hbase), Hincl, H.
Qed.

(** C3: let [sync_apps] have returned, having created the set
    [created1], and run it again for the same applications on a database
    in which the tables of the first run still exist and the tables of the
    models it created exist now (as in the database the first run leaves).
    Then the second run creates no table, executes no deferred statement
    and no custom SQL, its creation transaction completes with an empty
    created set, and the set it returns is empty; with no fixture to load
    it does return.  The manifest of the second run holds no model a table
    can be created for, as every such model now has its table among the
    introspected ones. *)
Theorem C3_sync_apps_idempotent (app_labels : list string) (d0 d1 : DB)
  (created1 : list Model) :
  out_of (sync_apps B P opts app_labels d0) = inr created1 ->
  incl (table_names B d0) (table_names B d1) ->
  (forall m, In m created1 ->
     In (table_name_converter B (db_table m)) (table_names B d1)) ->
  (forall m, In m (chain_values ((the_manifest B P) app_labels d1)) ->
     eligible m = false) /\
  Forall (fun e => is_create e = false /\ is_exec_deferred e = false /\
                   is_exec_custom e = false)
         (log_of (sync_apps B P opts app_labels d1)) /\
  out_of (create_phase B opts ((the_manifest B P) app_labels d1) d1) = inr [] /\
  (forall created2, out_of (sync_apps B P opts app_labels d1) = inr created2 ->
     created2 = []) /\
  (load_initial_data opts = false ->
   out_of (sync_apps B P opts app_labels d1) = inr []).
Proof.
  intros Hrun1 Hkept Hcreated.
  destruct (sync_apps_shape app_labels d0) as [tail0 [_ [_ [Hout1 _]]]].
  destruct (create_phase_shape ((the_manifest B P) app_labels d0) d0)
    as [Lc0 [Ld0 [_ [_ [_ [_ Hall1]]]]]].
  destruct (Hall1 created1 (Hout1 created1 Hrun1)) as [_ Hchar1].
  assert (Hnone : forall m, In m (chain_values ((the_manifest B P) app_labels d1)) ->
                            eligible m = false).
  { intros m Hin. destruct (eligible m) eqn:Hel; [exfalso | reflexivity].
    unfold the_manifest in Hin. apply in_manifest_iff in Hin as [Hcand Hinst].
    pose proof (model_installed_antitone _ _ m Hkept Hinst) as Hinst0.
    assert (Hin0 : In m (chain_values ((the_manifest B P) app_labels d0))).
    { unfold the_manifest. apply in_manifest_iff. auto. }
    apply model_installed_spec in Hinst as [Habsent _].
    apply Habsent, Hcreated, Hchar1. auto. }
  pose proof (create_phase_nothing_to_do _ d1 Hnone) as Hcp.
  destruct (sync_apps_shape app_labels d1) as [tail [Hlog [Htail [Hout Hret]]]].
  rewrite Hcp in Hlog, Htail, Hout, Hret.
  unfold log_of, out_of in *. cbn [fst snd] in *.
  split; [exact Hnone |]. split; [| split; [| split]].
  - rewrite Hlog. constructor; [repeat split |].
    apply Forall_app. split; [apply creating_tables_stdout; repeat split |].
    apply Forall_app. split.
    + constructor; [repeat split |]. apply Forall_app.
      split; [apply Forall_say; repeat split | repeat constructor].
    + eapply Forall_impl; [| exact Htail]. intros e He.
      destruct (install_event_classes _ _ He) as [H1 [H2 [_ [_ H3]]]].
      split; [exact H1 |]. split; [exact H2 |].
      destruct e; try reflexivity.
      destruct (H3 _ _ eq_refl) as [c [Hc Hm]]. inversion Hc; subst c.
      destruct Hm.
  - now rewrite Hcp.
  - intros created2 H2. specialize (Hout created2 H2). now inversion Hout.
  - intro Hload. now apply Hret.
Qed.

End Sync.

(** ** Signals *)

Lemma report_event_progress (e : Event) : report_event e -> progress_event e.
Proof. destruct e; simpl; auto. Qed.

Lemma report_event_not_migrate (e : Event) : report_event e -> is_migrate e = false.
Proof. destruct e; simpl; auto; contradiction. Qed.

Lemma pre_signals_app (l1 l2 : list Event) :
  pre_signals (l1 ++ l2) = pre_signals l1 ++ pre_signals l2.
Proof. apply flat_map_app. Qed.

Lemma post_signals_app (l1 l2 : list Event) :
  post_signals (l1 ++ l2) = post_signals l1 ++ post_signals l2.
Proof. apply flat_map_app. Qed.

Lemma no_signal_pre (l : list Event) : Forall no_signal l -> pre_signals l = [].
Proof.
  intro H. apply (flat_map_nil_Forall _ _ _ H).
  intros e He. destruct e; try reflexivity. destruct He.
Qed.

Lemma no_signal_post (l : list Event) : Forall no_signal l -> post_signals l = [].
Proof.
  intro H. apply (flat_map_nil_Forall _ _ _ H).
  intros e He. destruct e; try reflexivity. destruct He.
Qed.

Lemma create_event_no_signal (models : list Model) (e : Event) :
  create_event models e -> no_signal e.
Proof. destruct e; simpl; auto. Qed.

Lemma deferred_event_no_signal (e : Event) : deferred_event e -> no_signal e.
Proof. destruct e; simpl; auto. Qed.

Lemma install_event_no_signal (C : Model -> Prop) (e : Event) :
  install_event C e -> no_signal e.
Proof. destruct e; simpl; auto. Qed.

Lemma progress_event_no_signal (e : Event) : progress_event e -> no_signal e.
Proof. destruct e; simpl; auto. Qed.

Section Handle.

Context {DB : Type}.
Variable B : Backend DB.
Variable P : Project.
Variable opts : Options.

Lemma sync_apps_signals (app_labels : list string) (d : DB) :
  pre_signals (log_of (sync_apps B P opts app_labels d)) =
    [py_set (chain_values (the_manifest B P app_labels d))] /\
  post_signals (log_of (sync_apps B P opts app_labels d)) = [] /\
  Forall (fun e => is_migrate e = false) (log_of (sync_apps B P opts app_labels d)).
Proof.
  destruct (sync_apps_shape B P opts app_labels d) as [tail [Hlog [Htail _]]].
  destruct (create_phase_shape B opts (the_manifest B P app_labels d) d)
    as [Lc [Ld [Hcp [HLc [HLd _]]]]].
  rewrite Hcp in Hlog. rewrite Hlog.
  set (rest := creating_tables opts
               ++ (EAtomicEnter (can_rollback_ddl B) :: Lc ++ Ld) ++ tail).
  set (payload := py_set (chain_values (the_manifest B P app_labels d))).
  assert (Hrest : Forall (fun e => no_signal e /\ is_migrate e = false) rest).
  { apply Forall_app. split; [apply creating_tables_stdout; now split |].
    apply Forall_app. split.
    - constructor; [now split |]. apply Forall_app. split.
      + eapply Forall_impl; [| exact HLc]. intros e He.
        split; [eapply create_event_no_signal, He |].
        now apply (create_event_classes _ _ He).
      + eapply Forall_impl; [| exact HLd]. intros e He.
        split; [apply deferred_event_no_signal, He |].
        now apply (deferred_event_classes _ He).
    - eapply Forall_impl; [| exact Htail]. intros e He.
      split; [eapply install_event_no_signal, He |].
      now apply (install_event_classes _ _ He). }
  assert (Hsig : Forall no_signal rest).
  { eapply Forall_impl; [| exact Hrest]. now intros e [H _]. }
  split; [| split].
  - change (pre_signals (EPreMigrate payload :: rest))
      with ([payload] ++ pre_signals rest).
    now rewrite (no_signal_pre _ Hsig).
  - change (post_signals (EPreMigrate payload :: rest))
      with (post_signals rest).
    now rewrite (no_signal_post _ Hsig).
  - constructor; [reflexivity |].
    eapply Forall_impl; [| exact Hrest]. now intros e [_ H].
Qed.

Lemma legacy_sync_run (run_syncdb : bool) (d : DB) :
  pre_signals (log_of (legacy_sync B P opts run_syncdb d)) =
    [(pre_migrate_payload B P) run_syncdb d] /\
  post_signals (log_of (legacy_sync B P opts run_syncdb d)) = [] /\
  Forall (fun e => is_migrate e = false)
         (log_of (legacy_sync B P opts run_syncdb d)) /\
  (forall created, out_of (legacy_sync B P opts run_syncdb d) = inr created ->
     if run_syncdb && nonempty (unmigrated_apps P)
     then out_of (sync_apps B P opts (unmigrated_apps P) d) = inr created
     else created = []).
Proof.
  unfold legacy_sync, pre_migrate_payload.
  destruct (run_syncdb && nonempty (unmigrated_apps P)).
  - destruct (sync_apps_signals (unmigrated_apps P) d) as [Hpre [Hpost Hmig]].
    unfold bind, tell.
    destruct (sync_apps B P opts (unmigrated_apps P) d) as [[l1 d1] r1].
    unfold log_of, out_of in *. cbn [fst snd] in *.
    assert (Hsay : forall b msg, pre_signals (say b msg) = [] /\
                                 post_signals (say b msg) = []).
    { intros [] msg; split; reflexivity. }
    rewrite pre_signals_app, post_signals_app, Hpre, Hpost.
    rewrite (proj1 (Hsay _ _)), (proj2 (Hsay _ _)).
    split; [reflexivity |]. split; [reflexivity |]. split; [| auto].
    apply Forall_app. split; [apply Forall_say; reflexivity | exact Hmig].
  - split; [reflexivity |]. split; [reflexivity |].
    split; [repeat constructor |]. intros created H. now inversion H.
Qed.

Lemma flush_for_tests_events : emits report_event (flush_for_tests B opts).
Proof.
  unfold flush_for_tests. destruct (test_flush opts); [| apply emits_ret].
  apply emits_call. exact I.
Qed.

Lemma operations_to_perform_events (targets : list Target)
  (run_syncdb labels_only : bool) :
  Forall report_event (operations_to_perform P opts targets run_syncdb labels_only).
Proof.
  unfold operations_to_perform.
  destruct (1 <=? verbosity opts)%Z; [| constructor].
  constructor; [exact I |]. apply Forall_app. split.
  - destruct (run_syncdb && nonempty (unmigrated_apps P)); repeat constructor.
  - destruct labels_only; [repeat constructor |].
    destruct targets as [| [app [name |]] rest]; repeat constructor.
Qed.

Lemma migration_progress_callback_events (progress : list Progress) :
  Forall progress_event (flat_map (migration_progress_callback opts) progress).
Proof.
  induction progress as [| p progress IH]; [constructor |].
  cbn [flat_map]. apply Forall_app. split; [| exact IH].
  unfold migration_progress_callback.
  repeat match goal with
         | |- context [if ?b then _ else _] => destruct b
         end; repeat constructor.
Qed.

Lemma run_migrations_events (targets : list Target) (plan : Plan) :
  emits progress_event (run_migrations B P opts targets plan).
Proof.
  unfold run_migrations.
  apply emits_bind; [apply emits_tell, Forall_say; exact I |]. intros _.
  destruct plan as [| step plan].
  - apply emits_tell. unfold no_migrations_report.
    destruct (1 <=? verbosity opts)%Z; [| constructor].
    constructor; [exact I |].
    destruct (nonempty (autodetector_changes P)); repeat constructor.
  - intro d. unfold migrate.
    destruct (executor_migrate B targets (step :: plan) (fake opts) d)
      as [[progress d1] r].
    unfold log_of. cbn [fst]. constructor; [exact I |].
    apply migration_progress_callback_events.
Qed.

Lemma run_migrations_empty_plan (targets : list Target) (d : DB) :
  run_migrations B P opts targets [] d =
  (say (1 <=? verbosity opts)%Z "Running migrations:" ++ no_migrations_report P opts,
   d, inr tt).
Proof. reflexivity. Qed.

(** C2, as amended: every invocation that is not a listing request and
    that completes without raising emits exactly one pre-migrate signal
    and exactly one post-migrate signal, the latter as its last action.
    When the legacy synchronisation runs (no application was named and
    some application has no migrations) the pre-migrate signal carries the
    set of the models of the manifest and the post-migrate signal the set
    [sync_apps] returned; otherwise both carry nothing.  This holds
    whatever the plan is, the empty plan included.  An invocation that
    raises emits no post-migrate signal and at most one pre-migrate
    signal. *)
Theorem C2_one_signal_each (d : DB) :
  opt_list opts = false ->
  (out_of (handle B P opts d) = inr tt ->
   exists targets run_syncdb labels_only created,
     resolve_targets P opts = inr (targets, run_syncdb, labels_only) /\
     pre_signals (log_of (handle B P opts d)) =
       [pre_migrate_payload B P run_syncdb (prepare_database B d)] /\
     post_signals (log_of (handle B P opts d)) = [created] /\
     (exists earlier,
        log_of (handle B P opts d) = earlier ++ [EPostMigrate created]) /\
     (if run_syncdb && nonempty (unmigrated_apps P)
      then out_of (sync_apps B P opts (unmigrated_apps P) (prepare_database B d)) =
           inr created
      else created = [])) /\
  (forall e, out_of (handle B P opts d) = inl e ->
     post_signals (log_of (handle B P opts d)) = [] /\
     List.length (pre_signals (log_of (handle B P opts d))) <= 1).
Proof.
  intros Hlist. unfold handle. rewrite Hlist.
  unfold bind, lift, raise, tell.
  destruct (detect_conflicts P) as [| c cs];
    [| split; [discriminate | intros e _; split; [reflexivity | simpl; lia]]].
  cbn [nonempty].
  destruct (resolve_targets P opts) as [e | [[targets run_syncdb] labels_only]];
    [split; [discriminate | intros e' _; split; [reflexivity | simpl; lia]] |].
  cbn [fst snd].
  set (d0 := prepare_database B d).
  set (plan := migration_plan B targets d0).
  pose proof (operations_to_perform_events targets run_syncdb labels_only) as Hops.
  assert (Hq0 : Forall no_signal
                  (operations_to_perform P opts targets run_syncdb labels_only)).
  { eapply Forall_impl; [| exact Hops].
    intros ev Hev. now apply progress_event_no_signal, report_event_progress. }
  destruct (legacy_sync_run run_syncdb d0) as [Hpre [Hpost [_ Hcreated]]].
  destruct (legacy_sync B P opts run_syncdb d0) as [[l1 d1] [e | created]];
    unfold out_of, log_of in *; cbn [fst snd] in *.
  { split; [discriminate |]. intros e' _.
    rewrite !post_signals_app, !pre_signals_app, Hpre, Hpost,
      (no_signal_pre _ Hq0), (no_signal_post _ Hq0).
    split; [reflexivity | simpl; lia]. }
  pose proof (flush_for_tests_events d1) as Hflush.
  assert (Hq2 : Forall no_signal (log_of (flush_for_tests B opts d1))).
  { eapply Forall_impl; [| exact Hflush].
    intros ev Hev. now apply progress_event_no_signal, report_event_progress. }
  destruct (flush_for_tests B opts d1) as [[l2 d2] [e | []]];
    unfold out_of, log_of in *; cbn [fst snd] in *.
  { split; [discriminate |]. intros e' _.
    rewrite !post_signals_app, !pre_signals_app, Hpre, Hpost,
      (no_signal_pre _ Hq0), (no_signal_post _ Hq0),
      (no_signal_pre _ Hq2), (no_signal_post _ Hq2).
    split; [reflexivity | simpl; lia]. }
  pose proof (run_migrations_events targets plan d2) as Hmig.
  assert (Hq3 : Forall no_signal (log_of (run_migrations B P opts targets plan d2))).
  { eapply Forall_impl; [| exact Hmig]. apply progress_event_no_signal. }
  destruct (run_migrations B P opts targets plan d2) as [[l3 d3] [e | []]];
    unfold out_of, log_of in *; cbn [fst snd] in *.
  { split; [discriminate |]. intros e' _.
    rewrite !post_signals_app, !pre_signals_app, Hpre, Hpost,
      (no_signal_pre _ Hq0), (no_signal_post _ Hq0),
      (no_signal_pre _ Hq2), (no_signal_post _ Hq2),
      (no_signal_pre _ Hq3), (no_signal_post _ Hq3).
    split; [reflexivity | simpl; lia]. }
  split; [| discriminate].
  intros _. exists targets, run_syncdb, labels_only, created.
  split; [reflexivity |]. split; [| split; [| split]].
  - rewrite !pre_signals_app, Hpre, (no_signal_pre _ Hq0), (no_signal_pre _ Hq2),
      (no_signal_pre _ Hq3). reflexivity.
  - rewrite !post_signals_app, Hpost, (no_signal_post _ Hq0),
      (no_signal_post _ Hq2), (no_signal_post _ Hq3). reflexivity.
  - exists ([EPrepareDatabase] ++ [] ++ [] ++
            operations_to_perform P opts targets run_syncdb labels_only ++
            l1 ++ l2 ++ l3).
    now rewrite <- !app_assoc.
  - exact (Hcreated created eq_refl).
Qed.

(** C9, as amended: in every invocation that completes with an empty plan,
    nothing is migrated, and when the verbosity is at least 1 and the
    autodetector reports changes the command ends by writing that there
    are no migrations to apply and the two notices about changes that are
    in no migration yet, before the post-migrate signal.  (At verbosity 0
    the autodetector is not consulted and nothing is written.) *)
Theorem C9_undeclared_changes_notice (d : DB) (targets : list Target)
  (run_syncdb labels_only : bool) :
  opt_list opts = false ->
  out_of (handle B P opts d) = inr tt ->
  resolve_targets P opts = inr (targets, run_syncdb, labels_only) ->
  migration_plan B targets (prepare_database B d) = [] ->
  Forall (fun e => is_migrate e = false) (log_of (handle B P opts d)) /\
  ((1 <= verbosity opts)%Z -> autodetector_changes P <> [] ->
   exists earlier created,
     log_of (handle B P opts d) =
     earlier ++ [EStdout "  No migrations to apply."; EStdout changes_notice_1;
                 EStdout changes_notice_2; EPostMigrate created]).
Proof.
  intros Hlist Hout Hres Hplan. revert Hout. unfold handle.
  rewrite Hlist, Hres. unfold bind, lift, raise, tell.
  destruct (detect_conflicts P) as [| c cs]; [| discriminate].
  cbn [nonempty fst snd]. rewrite Hplan.
  set (d0 := prepare_database B d).
  destruct (legacy_sync_run run_syncdb d0) as [_ [_ [Hmig1 _]]].
  destruct (legacy_sync B P opts run_syncdb d0) as [[l1 d1] [e | created]];
    unfold out_of, log_of in *; cbn [fst snd] in *; [discriminate |].
  pose proof (flush_for_tests_events d1) as Hflush.
  destruct (flush_for_tests B opts d1) as [[l2 d2] [e | []]];
    unfold out_of, log_of in *; cbn [fst snd] in *; [discriminate |].
  rewrite run_migrations_empty_plan. intros _.
  pose proof (operations_to_perform_events targets run_syncdb labels_only) as Hops.
  split.
  - constructor; [reflexivity |]. cbn [app].
    apply Forall_app. split.
    { eapply Forall_impl; [| exact Hops]. apply report_event_not_migrate. }
    apply Forall_app. split; [exact Hmig1 |].
    apply Forall_app. split.
    { eapply Forall_impl; [| exact Hflush]. apply report_event_not_migrate. }
    apply Forall_app. split; [| repeat constructor].
    apply Forall_app. split; [apply Forall_say; reflexivity |].
    unfold no_migrations_report.
    destruct (1 <=? verbosity opts)%Z; [| constructor].
    constructor; [reflexivity |].
    destruct (nonempty (autodetector_changes P)); repeat constructor.
  - intros Hverb Hchanges. unfold no_migrations_report.
    apply Z.leb_le in Hverb. rewrite Hverb.
    destruct (autodetector_changes P) as [| c cs]; [contradiction |].
    cbn [nonempty].
    exists ([EPrepareDatabase] ++ [] ++ [] ++
            operations_to_perform P opts targets run_syncdb labels_only ++
            l1 ++ l2 ++ say true "Running migrations:"), created.
    rewrite <- !app_assoc. reflexivity.
Qed.

End Handle.

(** ** The command on the demonstration installation *)

Lemma C2_one_signal_each_witness :
  exists targets run_syncdb labels_only created,
    resolve_targets Demo.project (Demo.options None None 1) =
      inr (targets, run_syncdb, labels_only) /\
    pre_signals (log_of (handle Demo.backend Demo.project
                                (Demo.options None None 1) [])) =
      [pre_migrate_payload Demo.backend Demo.project run_syncdb
         (prepare_database Demo.backend [])] /\
    post_signals (log_of (handle Demo.backend Demo.project
                                 (Demo.options None None 1) [])) = [created] /\
    (exists earlier,
       log_of (handle Demo.backend Demo.project (Demo.options None None 1) []) =
       earlier ++ [EPostMigrate created]) /\
    (if run_syncdb && nonempty (unmigrated_apps Demo.project)
     then out_of (sync_apps Demo.backend Demo.project (Demo.options None None 1)
                    (unmigrated_apps Demo.project)
                    (prepare_database Demo.backend [])) = inr created
     else created = []).
Proof.
  apply (C2_one_signal_each Demo.backend Demo.project (Demo.options None None 1) []).
  - reflexivity.
  - reflexivity.
Defined.

(** The no-op invocation: nothing installed, nothing to migrate. *)
Example handle_nothing_to_do :
  handle Demo.backend Demo.empty_project (Demo.options None None 1) [] =
  ([EPrepareDatabase; EStdout "Operations to perform:";
    EStdout "  Apply all migrations: (none)"; EPreMigrate [];
    EStdout "Running migrations:"; EStdout "  No migrations to apply.";
    EPostMigrate []],
   [], inr tt).
Proof. reflexivity. Qed.

(** C2 as stated fails: an invocation that is refused for conflicting
    migrations emits no signal at all, and one whose executor raises has
    emitted the pre-migrate signal and emits no post-migrate signal. *)
Lemma C2_no_post_signal_after_failure :
  (pre_signals (log_of (handle Demo.backend Demo.conflicting_project
                               (Demo.options None None 1) [])) = [] /\
   post_signals (log_of (handle Demo.backend Demo.conflicting_project
                                (Demo.options None None 1) [])) = []) /\
  (out_of (handle Demo.broken_executor Demo.project
                  (Demo.options (Some "blog") None 1) []) =
     inl (OtherError "relation already exists") /\
   pre_signals (log_of (handle Demo.broken_executor Demo.project
                               (Demo.options (Some "blog") None 1) [])) = [[]] /\
   post_signals (log_of (handle Demo.broken_executor Demo.project
                                (Demo.options (Some "blog") None 1) [])) = []).
Proof.
  split; [split; reflexivity |]. split; [| split]; reflexivity.
Qed.

Lemma C9_undeclared_changes_notice_witness :
  Forall (fun e => is_migrate e = false)
         (log_of (handle Demo.backend Demo.project
                         (Demo.options (Some "blog") None 1) Demo.up_to_date)) /\
  ((1 <= verbosity (Demo.options (Some "blog") None 1))%Z ->
   autodetector_changes Demo.project <> [] ->
   exists earlier created,
     log_of (handle Demo.backend Demo.project
                    (Demo.options (Some "blog") None 1) Demo.up_to_date) =
     earlier ++ [EStdout "  No migrations to apply."; EStdout changes_notice_1;
                 EStdout changes_notice_2; EPostMigrate created]).
Proof.
  apply (C9_undeclared_changes_notice Demo.backend Demo.project
           (Demo.options (Some "blog") None 1) Demo.up_to_date
           [("blog", Some "0002_add_author")] false true).
  - reflexivity.
  - reflexivity.
  - reflexivity.
  - reflexivity.
Defined.

Example handle_reports_undeclared_changes :
  handle Demo.backend Demo.project (Demo.options (Some "blog") None 1)
         Demo.up_to_date =
  ([EPrepareDatabase; EStdout "Operations to perform:";
    EStdout "  Apply all migrations: blog"; EPreMigrate [];
    EStdout "Running migrations:"; EStdout "  No migrations to apply.";
    EStdout changes_notice_1; EStdout changes_notice_2; EPostMigrate []],
   Demo.up_to_date, inr tt).
Proof. reflexivity. Qed.

(** C9 as stated fails: at verbosity 0, with an empty plan, no legacy
    synchronisation and changes the autodetector would report, nothing is
    written. *)
Lemma C9_silent_at_verbosity_0 :
  autodetector_changes Demo.project = ["blog"] /\
  migration_plan Demo.backend [("blog", Some "0002_add_author")]
                 (prepare_database Demo.backend Demo.up_to_date) = [] /\
  handle Demo.backend Demo.project (Demo.options (Some "blog") None 0)
         Demo.up_to_date =
  ([EPrepareDatabase; EPreMigrate []; EPostMigrate []], Demo.up_to_date, inr tt).
Proof.
  split; [| split]; reflexivity.
Qed.

(** C4 as stated fails: with no table in the database, the proxy model and
    the unmanaged model of the library are both in the manifest (and in
    the payload of the pre-migrate signal). *)
Lemma C4_proxy_and_unmanaged_in_manifest :
  proxy Demo.rare_book = true /\
  managed Demo.legacy_view = false /\
  the_manifest Demo.backend Demo.project ["library"] [] =
    [("library", [Demo.author; Demo.book; Demo.rare_book; Demo.legacy_view])] /\
  In Demo.rare_book
     (chain_values (the_manifest Demo.backend Demo.project ["library"] [])) /\
  In Demo.legacy_view
     (chain_values (the_manifest Demo.backend Demo.project ["library"] [])).
Proof.
  split; [reflexivity |]. split; [reflexivity |]. split; [reflexivity |].
  split; simpl; auto.
Qed.

Lemma C3_sync_apps_idempotent_witness :
  (forall m,
     In m (chain_values (the_manifest Demo.backend Demo.project ["library"]
                           ["library_author"; "library_book"])) ->
     eligible m = false) /\
  Forall (fun e => is_create e = false /\ is_exec_deferred e = false /\
                   is_exec_custom e = false)
         (log_of (sync_apps Demo.backend Demo.project (Demo.options None None 1)
                            ["library"] ["library_author"; "library_book"])) /\
  out_of (create_phase Demo.backend (Demo.options None None 1)
            (the_manifest Demo.backend Demo.project ["library"]
               ["library_author"; "library_book"])
            ["library_author"; "library_book"]) = inr [] /\
  (forall created2,
     out_of (sync_apps Demo.backend Demo.project (Demo.options None None 1)
               ["library"] ["library_author"; "library_book"]) = inr created2 ->
     created2 = []) /\
  (load_initial_data (Demo.options None None 1) = false ->
   out_of (sync_apps Demo.backend Demo.project (Demo.options None None 1)
             ["library"] ["library_author"; "library_book"]) = inr []).
Proof.
  apply (C3_sync_apps_idempotent Demo.backend Demo.project
           (Demo.options None None 1) ["library"] []
           ["library_author"; "library_book"] [Demo.author; Demo.book]).
  - reflexivity.
  - intros x Hx. destruct Hx.
  - intros m Hm. simpl in Hm. destruct Hm as [<- | [<- | []]]; simpl; auto.
Defined.

(** The first run of [sync_apps] on the empty database leaves exactly the
    database the second run above starts from. *)
Example sync_apps_first_run :
  db_of (sync_apps Demo.backend Demo.project (Demo.options None None 1)
                   ["library"] []) = ["library_author"; "library_book"] /\
  out_of (sync_apps Demo.backend Demo.project (Demo.options None None 1)
                    ["library"] []) = inr [Demo.author; Demo.book] /\
  executed_deferred
    (log_of (sync_apps Demo.backend Demo.project (Demo.options None None 1)
                       ["library"] [])) =
    ["ALTER TABLE library_book ADD FOREIGN KEY (author_id)"].
Proof. split; [| split]; reflexivity. Qed.

(** The custom SQL of [Author] fails and that of [Book] is installed all
    the same. *)
Example custom_sql_failure_is_not_fatal :
  custom_sql_phase Demo.backend (Demo.options None None 1)
    [("library", [Demo.author; Demo.book])] [Demo.author; Demo.book]
    ["library_author"; "library_book"] =
  ([EAtomicEnter true; EExecCustom Demo.author "FAIL author.sql";
    EAtomicExit Rollback;
    EStderr (custom_sql_failure_message "library" Demo.author
               (OtherError "syntax error"));
    EAtomicEnter true; EExecCustom Demo.book "INSERT INTO library_book";
    EAtomicExit Commit],
   ["library_author"; "library_book"], inr tt).
Proof. reflexivity. Qed.

(** ** More on target resolution *)

(** X1: a request that names a component but no migration targets the
    leaf nodes of that component and nothing else, without legacy
    synchronisation, when the component has migrations; it is refused
    otherwise. *)
Theorem X1_component_only_targets (P : Project) (opts : Options) (app : string) :
  truthy (opt_app_label opts) = Some app ->
  truthy (opt_migration_name opts) = None ->
  (In app (migrated_apps P) ->
   exists targets,
     resolve_targets P opts = inr (targets, false, true) /\
     forall t, In t targets <->
               exists name, t = (app, Some name) /\ In (app, name) (leaf_nodes P)) /\
  (~ In app (migrated_apps P) ->
   resolve_targets P opts = inl (CommandError (unmigrated_app_message app))).
Proof.
  intros Happ Hname. unfold resolve_targets. rewrite Happ, Hname. split.
  - intro Hin. rewrite (in_str_true _ _ Hin). cbn [negb].
    eexists. split; [reflexivity |].
    intros [a n]. rewrite in_map_iff. split.
    + intros [[a0 n0] [Heq Hf]]. apply filter_In in Hf as [Hleaf Hsame].
      cbn [fst snd] in *. apply String.eqb_eq in Hsame. inversion Heq; subst.
      exists n0. auto.
    + intros [name [Heq Hleaf]]. inversion Heq; subst.
      exists (app, name). split; [reflexivity |]. apply filter_In.
      split; [exact Hleaf | apply String.eqb_refl].
  - intro Hnin. destruct (in_str app (migrated_apps P)) eqn:Hmem.
    + apply in_str_iff in Hmem. contradiction.
    + reflexivity.
Qed.

Lemma X1_component_only_targets_witness :
  exists targets,
    resolve_targets Demo.conflicting_project (Demo.options (Some "blog") None 1) =
      inr (targets, false, true) /\
    forall t, In t targets <->
              exists name, t = ("blog", Some name) /\
                           In ("blog", name) (leaf_nodes Demo.conflicting_project).
Proof.
  apply (X1_component_only_targets Demo.conflicting_project
           (Demo.options (Some "blog") None 1) "blog" eq_refl eq_refl).
  simpl. auto.
Defined.

Lemma resolve_targets_run_syncdb (P : Project) (opts : Options)
  (targets : list Target) (run_syncdb labels_only : bool) :
  resolve_targets P opts = inr (targets, run_syncdb, labels_only) ->
  truthy (opt_app_label opts) <> None -> run_syncdb = false.
Proof.
  unfold resolve_targets.
  destruct (truthy (opt_app_label opts)) as [app |]; [| contradiction].
  intros H _. destruct (negb (in_str app (migrated_apps P)));
    [destruct (truthy (opt_migration_name opts)); discriminate |].
  destruct (truthy (opt_migration_name opts)) as [name |];
    [| now inversion H].
  destruct (String.eqb name "zero"); [now inversion H |].
  destruct (get_migration_by_prefix (disk_migrations P) app name)
    as [[] | full]; try discriminate. now inversion H.
Qed.

(** X2: whatever [resolve_targets] returns, legacy synchronisation is
    requested exactly when no component is named; a result that is not
    "labels only" is a single target (so the [targets[0]] of lines 154-161
    exists); and when a component is named it has migrations and every
    target belongs to it. *)
Theorem X2_resolved_targets_invariant (P : Project) (opts : Options)
  (targets : list Target) (run_syncdb labels_only : bool) :
  resolve_targets P opts = inr (targets, run_syncdb, labels_only) ->
  (run_syncdb = true <-> truthy (opt_app_label opts) = None) /\
  (labels_only = false ->
   exists app unit, targets = [(app, unit)] /\
                    truthy (opt_migration_name opts) <> None) /\
  (forall app, truthy (opt_app_label opts) = Some app ->
     In app (migrated_apps P) /\ forall t, In t targets -> fst t = app).
Proof.
  unfold resolve_targets.
  destruct (truthy (opt_app_label opts)) as [app |].
  - destruct (in_str app (migrated_apps P)) eqn:Hmem;
      [apply in_str_iff in Hmem | destruct (truthy (opt_migration_name opts));
                                   discriminate].
    cbn [negb].
    destruct (truthy (opt_migration_name opts)) as [name |].
    + assert (Hone : forall unit,
                inr ([(app, unit)], false, false) =
                @inr Exn _ (targets, run_syncdb, labels_only) ->
                (run_syncdb = true <-> Some app = None) /\
                (labels_only = false ->
                 exists app0 unit0, targets = [(app0, unit0)] /\ Some name <> None) /\
                (forall app0, Some app = Some app0 ->
                   In app0 (migrated_apps P) /\
                   forall t, In t targets -> fst t = app0)).
      { intros unit H. inversion H; subst. split; [split; discriminate |].
        split; [intros _; exists app, unit; split; [reflexivity | discriminate] |].
        intros app0 Heq. inversion Heq; subst. split; [exact Hmem |].
        intros t [<- | []]. reflexivity. }
      destruct (String.eqb name "zero"); [apply Hone |].
      destruct (get_migration_by_prefix (disk_migrations P) app name)
        as [[] | full]; try discriminate. apply Hone.
    + intro H. inversion H; subst. split; [split; discriminate |].
      split; [discriminate |].
      intros app0 Heq. inversion Heq; subst. split; [exact Hmem |].
      intros t Ht. apply in_map_iff in Ht as [key [<- Hkey]].
      apply filter_In in Hkey as [_ Hsame]. now apply String.eqb_eq in Hsame.
  - intro H. inversion H; subst. split; [split; reflexivity |].
    split; [discriminate | discriminate].
Qed.

Lemma X2_resolved_targets_invariant_witness :
  (false = true <->
   truthy (opt_app_label (Demo.options (Some "blog") (Some "0001") 1)) = None) /\
  (false = false ->
   exists app unit,
     [("blog", Some "0001_initial")] = [(app, unit)] /\
     truthy (opt_migration_name (Demo.options (Some "blog") (Some "0001") 1)) <> None) /\
  (forall app,
     truthy (opt_app_label (Demo.options (Some "blog") (Some "0001") 1)) = Some app ->
     In app (migrated_apps Demo.project) /\
     forall t, In t [("blog", Some "0001_initial")] -> fst t = app).
Proof.
  apply (X2_resolved_targets_invariant Demo.project
           (Demo.options (Some "blog") (Some "0001") 1)
           [("blog", Some "0001_initial")] false false).
  reflexivity.
Defined.

(** ** More on [handle] *)

Section HandleRuns.

Context {DB : Type}.
Variable B : Backend DB.
Variable P : Project.
Variable opts : Options.

(** The run of [handle] once the targets are resolved, step by step. *)
Lemma handle_run (d : DB) (targets : list Target) (run_syncdb labels_only : bool) :
  opt_list opts = false ->
  detect_conflicts P = [] ->
  resolve_targets P opts = inr (targets, run_syncdb, labels_only) ->
  handle B P opts d =
  let d0 := prepare_database B d in
  let plan := migration_plan B targets d0 in
  let ops := operations_to_perform P opts targets run_syncdb labels_only in
  match legacy_sync B P opts run_syncdb d0 with
  | (l1, d1, inl e) => (EPrepareDatabase :: ops ++ l1, d1, inl e)
  | (l1, d1, inr created) =>
      match flush_for_tests B opts d1 with
      | (l2, d2, inl e) => (EPrepareDatabase :: ops ++ l1 ++ l2, d2, inl e)
      | (l2, d2, inr _) =>
          match run_migrations B P opts targets plan d2 with
          | (l3, d3, inl e) =>
              (EPrepareDatabase :: ops ++ l1 ++ l2 ++ l3, d3, inl e)
          | (l3, d3, inr _) =>
              (EPrepareDatabase :: ops ++ l1 ++ l2 ++ l3 ++ [EPostMigrate created],
               d3, inr tt)
          end
      end
  end.
Proof.
  intros Hlist Hconf Hres. unfold handle. rewrite Hlist, Hconf, Hres.
  unfold bind, lift, tell. cbn [nonempty fst snd]. cbv zeta.
  destruct (legacy_sync B P opts run_syncdb (prepare_database B d))
    as [[l1 d1] [e | created]]; [reflexivity |].
  destruct (flush_for_tests B opts d1) as [[l2 d2] [e | u]]; [reflexivity |].
  destruct (run_migrations B P opts targets
              (migration_plan B targets (prepare_database B d)) d2)
    as [[l3 d3] [e | u']]; reflexivity.
Qed.


Lemma legacy_sync_skipped (d : DB) :
  legacy_sync B P opts false d = ([EPreMigrate []], d, inr []).
Proof. reflexivity. Qed.

Lemma say_stdout (b : bool) (msg : string) :
  Forall (fun e => is_stdout e = true) (say b msg).
Proof. destruct b; repeat constructor. Qed.

Lemma operations_to_perform_stdout (targets : list Target)
  (run_syncdb labels_only : bool) :
  Forall (fun e => is_stdout e = true)
         (operations_to_perform P opts targets run_syncdb labels_only).
Proof.
  unfold operations_to_perform.
  destruct (1 <=? verbosity opts)%Z; [| constructor].
  constructor; [reflexivity |]. apply Forall_app. split.
  - destruct (run_syncdb && nonempty (unmigrated_apps P)); repeat constructor.
  - destruct labels_only; [repeat constructor |].
    destruct targets as [| [app [unit |]] rest]; repeat constructor.
Qed.

Lemma no_migrations_report_stdout :
  Forall (fun e => is_stdout e = true) (no_migrations_report P opts).
Proof.
  unfold no_migrations_report.
  destruct (1 <=? verbosity opts)%Z; [| constructor].
  constructor; [reflexivity |].
  destruct (nonempty (autodetector_changes P)); repeat constructor.
Qed.

Lemma migration_progress_callback_stdout (progress : list Progress) :
  Forall (fun e => is_stdout e = true)
         (flat_map (migration_progress_callback opts) progress).
Proof.
  induction progress as [| p progress IH]; [constructor |].
  cbn [flat_map]. apply Forall_app. split; [| exact IH].
  unfold migration_progress_callback.
  repeat match goal with
         | |- context [if ?b then _ else _] => destruct b
         end; repeat constructor.
Qed.

Lemma stdout_is_plain (e : Event) :
  is_stdout e = true ->
  is_legacy_sync e = false /\ is_migrate e = false /\ no_signal e.
Proof. destruct e; simpl; try discriminate. intros _. repeat split. Qed.

Lemma flush_for_tests_run (d : DB) :
  (test_flush opts = false /\ flush_for_tests B opts d = ([], d, inr tt)) \/
  (test_flush opts = true /\
   log_of (flush_for_tests B opts d) = [ECallCommand "flush" []]).
Proof.
  unfold flush_for_tests. destruct (test_flush opts); [right | left; auto].
  split; [reflexivity |]. unfold call, log_of.
  now destruct (call_flush B d) as [d1 [e |]].
Qed.

(** The run of [run_migrations]: what it writes, and one call of the
    executor when there is a plan. *)
Lemma run_migrations_run (targets : list Target) (plan : Plan) (d : DB) :
  exists written reported,
    Forall (fun e => is_stdout e = true) written /\
    Forall (fun e => is_stdout e = true) reported /\
    log_of (run_migrations B P opts targets plan d) =
      written ++ match plan with
                 | [] => []
                 | _ :: _ => EMigrate targets plan (fake opts) :: reported
                 end.
Proof.
  unfold run_migrations, bind, tell.
  destruct plan as [| step plan].
  - exists (say (1 <=? verbosity opts)%Z "Running migrations:"
            ++ no_migrations_report P opts), [].
    split; [| split; [constructor | unfold log_of; cbn [fst]; now rewrite app_nil_r]].
    apply Forall_app. split; [apply say_stdout | apply no_migrations_report_stdout].
  - unfold migrate.
    destruct (executor_migrate B targets (step :: plan) (fake opts) d)
      as [[progress d1] r].
    exists (say (1 <=? verbosity opts)%Z "Running migrations:"),
      (flat_map (migration_progress_callback opts) progress).
    split; [apply say_stdout |].
    split; [apply migration_progress_callback_stdout | reflexivity].
Qed.

Lemma Forall_stdout_plain (Q : Event -> Prop) (l : list Event) :
  (forall e, is_stdout e = true -> Q e) ->
  Forall (fun e => is_stdout e = true) l -> Forall Q l.
Proof. intros H. apply Forall_impl. exact H. Qed.

Lemma run_migrations_not_legacy (targets : list Target) (plan : Plan) (d : DB) :
  Forall (fun e => is_legacy_sync e = false /\ no_signal e)
         (log_of (run_migrations B P opts targets plan d)).
Proof.
  destruct (run_migrations_run targets plan d)
    as [written [reported [Hw [Hr ->]]]].
  assert (Hplain : forall l, Forall (fun e => is_stdout e = true) l ->
                             Forall (fun e => is_legacy_sync e = false /\ no_signal e) l).
  { intro l. apply Forall_stdout_plain. intros e He.
    destruct (stdout_is_plain e He) as [H1 [_ H3]]. now split. }
  apply Forall_app. split; [now apply Hplain |].
  destruct plan; [constructor |].
  constructor; [now split | now apply Hplain].
Qed.

Lemma flush_for_tests_not_legacy (d : DB) :
  Forall (fun e => is_legacy_sync e = false /\ no_signal e /\ is_migrate e = false)
         (log_of (flush_for_tests B opts d)).
Proof.
  destruct (flush_for_tests_run d) as [[_ H] | [_ H]]; rewrite H.
  - constructor.
  - repeat constructor.
Qed.

(** X4: a request that names a component never runs the legacy
    synchronisation: whether the command completes or raises, it creates
    no table, runs no deferred or custom SQL, opens no transaction of its
    own, loads no fixture, and the signals it emits carry no model. *)
Theorem X4_named_component_skips_legacy_sync (d : DB) (app : string) :
  truthy (opt_app_label opts) = Some app ->
  opt_list opts = false ->
  Forall (fun e => is_legacy_sync e = false) (log_of (handle B P opts d)) /\
  (forall ms, In ms (pre_signals (log_of (handle B P opts d))) -> ms = []) /\
  (forall ms, In ms (post_signals (log_of (handle B P opts d))) -> ms = []).
Proof.
  intros Happ Hlist.
  destruct (detect_conflicts P) as [| c cs] eqn:Hconf.
  2: { unfold handle. rewrite Hlist, Hconf. unfold bind, raise, log_of.
       cbn [nonempty fst]. split; [repeat constructor |].
       split; intros ms []. }
  destruct (resolve_targets P opts) as [e | [[targets run_syncdb] labels_only]]
    eqn:Hres.
  { unfold handle. rewrite Hlist, Hconf, Hres. unfold bind, lift, log_of.
    cbn [nonempty fst]. split; [repeat constructor |]. split; intros ms []. }
  assert (Hrun : run_syncdb = false).
  { apply (resolve_targets_run_syncdb _ _ _ _ _ Hres). now rewrite Happ. }
  subst run_syncdb. rewrite (handle_run d _ _ _ Hlist Hconf Hres). cbv zeta.
  rewrite legacy_sync_skipped.
  set (d0 := prepare_database B d).
  set (ops := operations_to_perform P opts targets false labels_only).
  assert (Hops : Forall (fun e => is_legacy_sync e = false /\ no_signal e) ops).
  { apply (Forall_stdout_plain _ _
             (fun e He => conj (proj1 (stdout_is_plain e He))
                               (proj2 (proj2 (stdout_is_plain e He))))).
    apply operations_to_perform_stdout. }
  pose proof (flush_for_tests_not_legacy d0) as Hflush.
  destruct (flush_for_tests B opts d0) as [[l2 d2] [e | u]];
    unfold log_of in Hflush |- *; cbn [fst] in Hflush |- *.
  - assert (Hall : Forall (fun e => is_legacy_sync e = false /\
                                    forall ms, e = EPreMigrate ms \/ e = EPostMigrate ms ->
                                               ms = [])
                     (EPrepareDatabase :: ops ++ [EPreMigrate []] ++ l2)).
    { constructor; [split; [reflexivity | intros ms [H | H]; discriminate] |].
      apply Forall_app. split.
      - eapply Forall_impl; [| exact Hops]. intros ev [H1 H2].
        split; [exact H1 |]. intros ms [-> | ->]; destruct H2.
      - constructor.
        + split; [reflexivity |]. intros ms [H | H]; now inversion H.
        + eapply Forall_impl; [| exact Hflush]. intros ev [H1 [H2 _]].
          split; [exact H1 |]. intros ms [-> | ->]; destruct H2. }
    rewrite Forall_forall in Hall.
    split; [apply Forall_forall; intros ev Hev; now apply Hall |].
    split; intros ms Hms; apply in_flat_map in Hms as [ev [Hev Hms]];
      destruct ev; try destruct Hms as [<- | []]; try destruct Hms;
      eapply (proj2 (Hall _ Hev)); eauto.
  - pose proof (run_migrations_not_legacy targets
                  (migration_plan B targets d0) d2) as Hmig.
    destruct (run_migrations B P opts targets (migration_plan B targets d0) d2)
      as [[l3 d3] r3]; unfold log_of in Hmig |- *; cbn [fst] in Hmig |- *.
    assert (Hall : Forall (fun e => is_legacy_sync e = false /\
                                    forall ms, e = EPreMigrate ms \/ e = EPostMigrate ms ->
                                               ms = [])
                     (EPrepareDatabase :: ops ++ [EPreMigrate []] ++ l2 ++ l3
                      ++ [EPostMigrate []])).
    { constructor; [split; [reflexivity | intros ms [H | H]; discriminate] |].
      apply Forall_app. split.
      - eapply Forall_impl; [| exact Hops]. intros ev [H1 H2].
        split; [exact H1 |]. intros ms [-> | ->]; destruct H2.
      - constructor.
        + split; [reflexivity |]. intros ms [H | H]; now inversion H.
        + apply Forall_app. split.
          * eapply Forall_impl; [| exact Hflush]. intros ev [H1 [H2 _]].
            split; [exact H1 |]. intros ms [-> | ->]; destruct H2.
          * apply Forall_app. split.
            -- eapply Forall_impl; [| exact Hmig]. intros ev [H1 H2].
               split; [exact H1 |]. intros ms [-> | ->]; destruct H2.
            -- repeat constructor. intros ms [H | H]; now inversion H. }
    assert (Hsub : forall l, incl l (EPrepareDatabase :: ops ++ [EPreMigrate []]
                                     ++ l2 ++ l3 ++ [EPostMigrate []]) ->
                    Forall (fun e => is_legacy_sync e = false) l /\
                    (forall ms, In ms (pre_signals l) -> ms = []) /\
                    (forall ms, In ms (post_signals l) -> ms = [])).
    { rewrite Forall_forall in Hall. intros l Hincl.
      split; [apply Forall_forall; intros ev Hev; now apply Hall, Hincl |].
      split; intros ms Hms; apply in_flat_map in Hms as [ev [Hev Hms]];
        destruct ev; try destruct Hms as [<- | []]; try destruct Hms;
        eapply (proj2 (Hall _ (Hincl _ Hev))); eauto. }
    destruct r3 as [e | u'].
    + apply Hsub. intros ev Hev. cbn [List.app] in Hev |- *.
      destruct Hev as [<- | Hev]; [now left | right].
      apply in_app_or in Hev as [Hev | Hev]; apply in_or_app; [now left | right].
      destruct Hev as [<- | Hev]; [now left | right].
      apply in_app_or in Hev as [Hev | Hev]; apply in_or_app; [now left | right].
      apply in_or_app. now left.
    + apply Hsub. apply incl_refl.
Qed.

End HandleRuns.

(** ** More on [sync_apps] *)

Section SyncRuns.

Context {DB : Type}.
Variable B : Backend DB.
Variable P : Project.
Variable opts : Options.

Lemma commands_app (l1 l2 : list Event) :
  commands (l1 ++ l2) = commands l1 ++ commands l2.
Proof. apply flat_map_app. Qed.

Lemma commands_none (l : list Event) :
  Forall (fun e => is_command e = false) l -> commands l = [].
Proof.
  intro H. apply (flat_map_nil_Forall _ _ _ H).
  intros e He. destruct e; try reflexivity. discriminate.
Qed.

(** The run of [sync_apps], step by step. *)
Lemma sync_apps_run (app_labels : list string) (d : DB) :
  sync_apps B P opts app_labels d =
  let manifest := the_manifest B P app_labels d in
  let announced := EPreMigrate (py_set (chain_values manifest)) in
  match create_phase B opts manifest d with
  | (lc, dc, inl e) => (announced :: creating_tables opts ++ lc, dc, inl e)
  | (lc, dc, inr created) =>
      match after_creation B opts manifest app_labels created dc with
      | (l2, d2, r2) => (announced :: creating_tables opts ++ lc ++ l2, d2, r2)
      end
  end.
Proof.
  set (manifest := the_manifest B P app_labels d).
  change (sync_apps B P opts app_labels d)
    with ((tell [EPreMigrate (py_set (chain_values manifest))] ;;
           tell (creating_tables opts) ;;
           created_models <- create_phase B opts manifest ;;
           after_creation B opts manifest app_labels created_models) d).
  unfold bind, tell. cbv zeta.
  destruct (create_phase B opts manifest d) as [[lc dc] [e | created]];
    [reflexivity |].
  now destruct (after_creation B opts manifest app_labels created dc)
    as [[l2 d2] r2].
Qed.

Lemma load_fixtures_log (app_labels : list string) (d : DB) :
  exists k,
    log_of (load_fixtures B opts app_labels d) =
      map (fun a => ECallCommand "loaddata" ["initial_data"; a])
          (firstn k app_labels) /\
    (load_initial_data opts = false -> k = 0) /\
    (load_initial_data opts = true ->
     forall u, out_of (load_fixtures B opts app_labels d) = inr u ->
               firstn k app_labels = app_labels).
Proof.
  unfold load_fixtures. destruct (load_initial_data opts).
  2: { exists 0. split; [reflexivity |]. split; [reflexivity | discriminate]. }
  unfold for_each. revert d.
  induction app_labels as [| a rest IH]; intro d.
  - exists 0. split; [reflexivity |]. split; [discriminate | reflexivity].
  - simpl foldM. unfold bind, call.
    destruct (call_loaddata B a d) as [d1 [e |]].
    + exists 1. split; [reflexivity |]. split; discriminate.
    + destruct (IH d1) as [k [Hlog [_ Hout]]].
      destruct (foldM _ rest tt d1) as [[l2 d2] r2].
      unfold log_of, out_of in *. cbn [fst snd] in *.
      exists (S k). split; [cbn; now rewrite Hlog |].
      split; [discriminate |]. intros _ u Hu. cbn. now rewrite (Hout eq_refl u Hu).
Qed.

Lemma custom_sql_phase_no_command (manifest : list (string * list Model))
  (created_models : list Model) :
  emits (fun e => is_command e = false)
        (custom_sql_phase B opts manifest created_models).
Proof.
  unfold custom_sql_phase. apply emits_for_each. intro item.
  apply emits_for_each. intro m. unfold install_custom_sql.
  destruct (mem m created_models); [| apply emits_ret].
  destruct (nonempty (custom_sql_for_model B m)).
  - apply emits_bind; [apply emits_tell, Forall_say; reflexivity |]. intros _.
    apply emits_try_except.
    + apply emits_atomic; try reflexivity.
      apply emits_for_each. intro sql. apply emits_call. reflexivity.
    + intro e. apply emits_tell. constructor; [reflexivity |].
      destruct (show_traceback opts); repeat constructor.
  - apply emits_tell, Forall_say. reflexivity.
Qed.

Lemma create_phase_no_command (manifest : list (string * list Model)) (d : DB) :
  Forall (fun e => is_command e = false /\ is_exec_custom e = false)
         (log_of (create_phase B opts manifest d)).
Proof.
  destruct (create_phase_shape B opts manifest d)
    as [Lc [Ld [-> [HLc [HLd _]]]]].
  constructor; [now split |]. apply Forall_app. split.
  - eapply Forall_impl; [| exact HLc].
    intros e He. destruct e; simpl in He; try contradiction; now split.
  - eapply Forall_impl; [| exact HLd].
    intros e He. destruct e; simpl in He; try contradiction; now split.
Qed.

(** The run of the steps after the creation transaction. *)
Lemma after_creation_steps (manifest : list (string * list Model))
  (app_labels : list string) (created_models : list Model) (d : DB) :
  exists l2 d2 l3,
    custom_sql_phase B opts manifest created_models d = (l2, d2, inr tt) /\
    l3 = log_of (load_fixtures B opts app_labels d2) /\
    log_of (after_creation B opts manifest app_labels created_models d) =
      say (1 <=? verbosity opts)%Z ("  Installing custom SQL..." +++ nl)
      ++ l2 ++ l3 /\
    out_of (after_creation B opts manifest app_labels created_models d) =
      match out_of (load_fixtures B opts app_labels d2) with
      | inl e => inl e
      | inr _ => inr created_models
      end.
Proof.
  destruct (custom_sql_phase_blocks B opts manifest created_models d) as [Hout _].
  unfold after_creation, bind, tell.
  destruct (custom_sql_phase B opts manifest created_models d) as [[l2 d2] r2].
  unfold out_of in Hout. cbn [snd] in Hout. subst r2.
  exists l2, d2, (log_of (load_fixtures B opts app_labels d2)).
  split; [reflexivity |]. split; [reflexivity |].
  destruct (load_fixtures B opts app_labels d2) as [[l3 d3] [e | u]];
    unfold log_of, out_of, ret; cbn [fst snd]; split; try reflexivity.
  now rewrite app_nil_r.
Qed.

Lemma commands_say (b : bool) (msg : string) : commands (say b msg) = [].
Proof. now destruct b. Qed.

Lemma commands_loaddata (labels : list string) :
  commands (map (fun a => ECallCommand "loaddata" ["initial_data"; a]) labels) =
  map loaddata_call labels.
Proof. induction labels as [| a rest IH]; simpl; [reflexivity | now rewrite IH]. Qed.

(** The commands [sync_apps] calls are those of its last step. *)
Lemma sync_apps_commands (app_labels : list string) (d : DB) :
  (exists e, out_of (create_phase B opts (the_manifest B P app_labels d) d) = inl e /\
             commands (log_of (sync_apps B P opts app_labels d)) = []) \/
  (exists d2,
     commands (log_of (sync_apps B P opts app_labels d)) =
       commands (log_of (load_fixtures B opts app_labels d2)) /\
     forall created, out_of (sync_apps B P opts app_labels d) = inr created ->
       exists u, out_of (load_fixtures B opts app_labels d2) = inr u).
Proof.
  rewrite sync_apps_run. cbv zeta.
  pose proof (create_phase_no_command (the_manifest B P app_labels d) d) as Hcp.
  destruct (create_phase B opts (the_manifest B P app_labels d) d)
    as [[lc dc] [e | created]]; unfold log_of, out_of in *; cbn [fst snd] in *.
  - left. exists e. split; [reflexivity |].
    change (commands (creating_tables opts ++ lc) = []).
    rewrite commands_app. unfold creating_tables. rewrite commands_say.
    apply commands_none. eapply Forall_impl; [| exact Hcp]. now intros ev [H _].
  - right.
    destruct (after_creation_steps (the_manifest B P app_labels d) app_labels
                created dc) as [l2 [d2 [l3 [Hcs [Hl3 [Hlog Hout]]]]]].
    pose proof (custom_sql_phase_no_command (the_manifest B P app_labels d)
                  created dc) as Hnc.
    rewrite Hcs in Hnc. unfold log_of in Hnc. cbn [fst] in Hnc.
    exists d2.
    destruct (after_creation B opts (the_manifest B P app_labels d) app_labels
                created dc) as [[la da] ra].
    unfold log_of, out_of in *. cbn [fst snd] in *. subst la. split.
    + change (commands (creating_tables opts ++ lc ++
                        say (1 <=? verbosity opts)%Z
                            ("  Installing custom SQL..." +++ nl) ++ l2 ++ l3) =
              commands (fst (fst (load_fixtures B opts app_labels d2)))).
      rewrite !commands_app. unfold creating_tables.
      rewrite !commands_say, (commands_none l2 Hnc), <- Hl3.
      rewrite (commands_none lc); [reflexivity |].
      eapply Forall_impl; [| exact Hcp]. now intros ev [H _].
    + intros c Hc. rewrite Hout in Hc.
      destruct (snd (load_fixtures B opts app_labels d2)) as [e | u];
        [discriminate | now exists u].
Qed.

Lemma sync_apps_commands_prefix (app_labels : list string) (d : DB) :
  exists k,
    commands (log_of (sync_apps B P opts app_labels d)) =
    map loaddata_call (firstn k app_labels).
Proof.
  destruct (sync_apps_commands app_labels d)
    as [[e [_ Hnone]] | [d2 [Hsame _]]].
  - exists 0. now rewrite Hnone.
  - destruct (load_fixtures_log app_labels d2) as [k [Hlog _]].
    exists k. now rewrite Hsame, Hlog, commands_loaddata.
Qed.

(** X5: the fixtures are loaded last and per application label: the only
    commands [sync_apps] calls are [loaddata initial_data] for the labels
    it was given, in their order and stopping at the first one that
    raises; none is called when loading initial data is disabled; and
    when [sync_apps] returns with loading enabled, it was called once for
    every label, whether or not the application has models to create. *)
Theorem X5_fixtures_loaded_per_label (app_labels : list string) (d : DB) :
  (exists k,
     commands (log_of (sync_apps B P opts app_labels d)) =
     map loaddata_call (firstn k app_labels)) /\
  (load_initial_data opts = false ->
   commands (log_of (sync_apps B P opts app_labels d)) = []) /\
  (forall created,
     out_of (sync_apps B P opts app_labels d) = inr created ->
     load_initial_data opts = true ->
     commands (log_of (sync_apps B P opts app_labels d)) =
     map loaddata_call app_labels).
Proof.
  destruct (sync_apps_commands app_labels d)
    as [[e [Hfail Hnone]] | [d2 [Hsame Hret]]].
  - rewrite Hnone. split; [now exists 0 |]. split; [reflexivity |].
    intros created Hcreated.
    destruct (sync_apps_shape B P opts app_labels d) as [tail [_ [_ [Hout _]]]].
    rewrite (Hout created Hcreated) in Hfail. discriminate.
  - destruct (load_fixtures_log app_labels d2) as [k [Hlog [Hoff Hon]]].
    rewrite Hsame, Hlog, commands_loaddata.
    split; [now exists k |]. split.
    + intro Hload. now rewrite (Hoff Hload).
    + intros created Hcreated Hload.
      destruct (Hret created Hcreated) as [u Hu].
      now rewrite (Hon Hload u Hu).
Qed.

(** X6: [sync_apps] announces before it creates: the pre-migrate signal
    is its first action, before any table is created, and it carries every
    model a table is created for afterwards and every model of the set
    [sync_apps] returns. *)
Theorem X6_models_announced_before_creation (app_labels : list string) (d : DB) :
  exists announced rest,
    log_of (sync_apps B P opts app_labels d) = EPreMigrate announced :: rest /\
    (forall m, In m announced <->
               In m (chain_values (the_manifest B P app_labels d))) /\
    (forall m r, In (ECreateModel m r) rest -> In m announced) /\
    (forall created, out_of (sync_apps B P opts app_labels d) = inr created ->
       incl created announced).
Proof.
  destruct (sync_apps_shape B P opts app_labels d) as [tail [Hlog [Htail [Hout _]]]].
  destruct (create_phase_shape B opts (the_manifest B P app_labels d) d)
    as [Lc [Ld [Hcp [HLc [HLd [_ Hall]]]]]].
  rewrite Hcp in Hlog. rewrite Forall_forall in HLc, HLd, Htail.
  exists (py_set (chain_values (the_manifest B P app_labels d))).
  eexists. split; [exact Hlog |]. split; [apply py_set_in |]. split.
  - intros m r Hin. apply py_set_in.
    apply in_app_or in Hin as [Hin | Hin].
    { unfold creating_tables, say in Hin.
      destruct (1 <=? verbosity opts)%Z; [| destruct Hin].
      destruct Hin as [Hin | []]. discriminate. }
    apply in_app_or in Hin as [Hin | Hin].
    + destruct Hin as [Hin | Hin]; [discriminate |].
      apply in_app_or in Hin as [Hin | Hin].
      * now apply (create_event_classes _ _ (HLc _ Hin)) with (r := r).
      * now destruct (deferred_event_classes _ (HLd _ Hin)) as [Hc _].
    + now destruct (install_event_classes _ _ (Htail _ Hin)) as [Hc _].
  - intros created Hcreated m Hm. apply py_set_in.
    destruct (Hall created (Hout created Hcreated)) as [_ Hchar].
    now apply Hchar.
Qed.

(** The run of the creation transaction, step by step. *)
Lemma create_phase_run (manifest : list (string * list Model)) (d : DB) :
  create_phase B opts manifest d =
  let running := say (1 <=? verbosity opts)%Z ("    Running deferred SQL..." +++ nl) in
  match foldM (create_visit B opts) (visits manifest) ([], []) d with
  | (lc, d1, inl e) =>
      (EAtomicEnter (can_rollback_ddl B) :: lc ++ [EAtomicExit Rollback],
       rollback B d d1, inl e)
  | (lc, d1, inr st) =>
      match run_deferred_sql B (fst st) d1 with
      | (l3, d3, inl e) =>
          (EAtomicEnter (can_rollback_ddl B)
           :: (lc ++ running ++ l3) ++ [EAtomicExit Rollback],
           rollback B d d3, inl e)
      | (l3, d3, inr _) =>
          (EAtomicEnter (can_rollback_ddl B)
           :: (lc ++ running ++ l3) ++ [EAtomicExit Commit],
           d3, inr (snd st))
      end
  end.
Proof.
  unfold create_phase, atomic, bind, tell, ret. rewrite create_tables_visits.
  cbv zeta.
  destruct (foldM (create_visit B opts) (visits manifest) ([], []) d)
    as [[lc d1] [e | st]]; [reflexivity |].
  destruct (run_deferred_sql B (fst st) d1) as [[l3 d3] [e | u]];
    [reflexivity | now rewrite app_nil_r].
Qed.

(** X7: a failure while the tables are created or the deferred statements
    are executed is fatal.  When the creation transaction raises,
    [sync_apps] raises the same exception, the last thing it did is to
    roll that transaction back, the database is the one the rollback
    leaves, and no custom SQL is run and no fixture loaded. *)
Theorem X7_creation_failure_is_fatal (app_labels : list string) (d : DB) (e : Exn) :
  out_of (create_phase B opts (the_manifest B P app_labels d) d) = inl e ->
  out_of (sync_apps B P opts app_labels d) = inl e /\
  (exists earlier,
     log_of (sync_apps B P opts app_labels d) = earlier ++ [EAtomicExit Rollback]) /\
  (exists d1, db_of (sync_apps B P opts app_labels d) = rollback B d d1) /\
  Forall (fun ev => is_exec_custom ev = false /\ is_command ev = false)
         (log_of (sync_apps B P opts app_labels d)).
Proof.
  intro Hfail. rewrite sync_apps_run. cbv zeta.
  pose proof (create_phase_no_command (the_manifest B P app_labels d) d) as Hcp.
  rewrite create_phase_run in Hfail, Hcp |- *. cbv zeta in Hfail, Hcp |- *.
  set (announced := EPreMigrate (py_set (chain_values (the_manifest B P app_labels d)))).
  assert (Hmsg : Forall (fun ev => is_exec_custom ev = false /\ is_command ev = false)
                   (creating_tables opts)).
  { apply creating_tables_stdout. now split. }
  destruct (foldM (create_visit B opts) (visits (the_manifest B P app_labels d))
              ([], []) d) as [[lc d1] [e1 | st]];
    unfold log_of, out_of, db_of in *; cbn [fst snd] in *.
  - inversion Hfail; subst e1. split; [reflexivity |]. split; [| split].
    + exists (announced :: creating_tables opts
              ++ EAtomicEnter (can_rollback_ddl B) :: lc).
      cbn [List.app]. now rewrite <- !app_assoc.
    + now exists d1.
    + constructor; [now split |]. apply Forall_app. split; [exact Hmsg |].
      eapply Forall_impl; [| exact Hcp]. intros ev [H1 H2]. now split.
  - destruct (run_deferred_sql B (fst st) d1) as [[l3 d3] [e3 | u]];
      cbn [fst snd] in *; [| discriminate].
    inversion Hfail; subst e3. split; [reflexivity |]. split; [| split].
    + exists (announced :: creating_tables opts
              ++ EAtomicEnter (can_rollback_ddl B)
                 :: lc ++ say (1 <=? verbosity opts)%Z
                              ("    Running deferred SQL..." +++ nl) ++ l3).
      repeat (rewrite <- app_comm_cons || rewrite <- app_assoc). reflexivity.
    + now exists d3.
    + constructor; [now split |]. apply Forall_app. split; [exact Hmsg |].
      eapply Forall_impl; [| exact Hcp]. intros ev [H1 H2]. now split.
Qed.

Lemma created_in_app (l1 l2 : list Event) (m : Model) :
  created_in (l1 ++ l2) m <-> created_in l1 m \/ created_in l2 m.
Proof.
  unfold created_in. split.
  - intros [b Hb]. apply in_app_or in Hb as [Hb | Hb]; [left | right]; now exists b.
  - intros [[b Hb] | [b Hb]]; exists b; apply in_or_app; auto.
Qed.

Lemma created_in_none (l : list Event) (m : Model) :
  Forall (fun e => is_create e = false) l -> ~ created_in l m.
Proof.
  intros H [b Hb]. rewrite Forall_forall in H. now specialize (H _ Hb).
Qed.

(** The table creation loop, when it completes: the models it adds are
    those it created a table for, and no creation failed. *)
Lemma create_loop_created (vs : list (string * Model)) :
  forall st d st',
    out_of (foldM (create_visit B opts) vs st d) = inr st' ->
    (forall x, In x (snd st') <->
               In x (snd st) \/
               created_in (log_of (foldM (create_visit B opts) vs st d)) x) /\
    Forall (fun e => forall m, e <> ECreateModel m None)
           (log_of (foldM (create_visit B opts) vs st d)).
Proof.
  induction vs as [| [app_name m] vs IH]; intros st d st'.
  - intro H. inversion H; subst. split; [| constructor].
    intro x. split; [now left |]. intros [Hx | [b []]]. exact Hx.
  - change (foldM (create_visit B opts) ((app_name, m) :: vs) st d)
      with (bind (create_table B opts app_name m st)
                 (fun s1 => foldM (create_visit B opts) vs s1) d).
    unfold bind. destruct (eligible m) eqn:Hel.
    + rewrite (create_table_run B opts _ _ _ _ Hel).
      destruct (create_model B m d) as [d1 [e | deferred]];
        [unfold out_of; cbn [snd]; discriminate |].
      specialize (IH (fst st ++ deferred, set_add m (snd st)) d1 st').
      destruct (foldM (create_visit B opts) vs
                  (fst st ++ deferred, set_add m (snd st)) d1) as [[l2 d2] r2].
      unfold out_of, log_of in *. cbn [fst snd] in *.
      intro Hout. destruct (IH Hout) as [Hset Hok]. split.
      * intro x. rewrite Hset, set_add_in, !created_in_app.
        assert (Hmsg : ~ created_in (creating_messages opts app_name m) x).
        { apply created_in_none. unfold creating_messages.
          apply Forall_app. split; apply Forall_say; reflexivity. }
        split.
        -- intros [[Hx | ->] | Hx]; auto.
           right. left. right. exists deferred. now left.
        -- intros [Hx | [[Hx | [b Hb]] | Hx]]; auto; [contradiction |].
           destruct Hb as [Hb | [Hb | []]]; [| discriminate].
           inversion Hb; subst. auto.
      * apply Forall_app. split; [| exact Hok].
        apply Forall_app. split.
        -- unfold creating_messages. apply Forall_app.
           split; apply Forall_say; discriminate.
        -- repeat constructor; discriminate.
    + rewrite (create_table_skip B opts _ _ _ _ Hel).
      specialize (IH st d st').
      destruct (foldM (create_visit B opts) vs st d) as [[l2 d2] r2].
      unfold out_of, log_of in *. cbn [fst snd List.app] in *. exact IH.
Qed.

Lemma run_deferred_sql_no_create (q : list string) (d : DB) :
  Forall (fun e => is_create e = false) (log_of (run_deferred_sql B q d)).
Proof.
  destruct (run_deferred_sql_log B q d) as [k [-> _]].
  apply Forall_forall. intros e He. now apply in_map_iff in He as [s [<- _]].
Qed.

(** X8: when [sync_apps] returns, the set it returns is exactly the set
    of the models a table was created for during the run, and no
    [create_model] it called had raised. *)
Theorem X8_created_set_is_what_was_created (app_labels : list string) (d : DB)
  (created : list Model) :
  out_of (sync_apps B P opts app_labels d) = inr created ->
  (forall m, In m created <->
             created_in (log_of (sync_apps B P opts app_labels d)) m) /\
  (forall m, ~ In (ECreateModel m None) (log_of (sync_apps B P opts app_labels d))).
Proof.
  rewrite sync_apps_run. cbv zeta. rewrite create_phase_run. cbv zeta.
  set (manifest := the_manifest B P app_labels d).
  set (announced := EPreMigrate (py_set (chain_values manifest))).
  set (running := say (1 <=? verbosity opts)%Z ("    Running deferred SQL..." +++ nl)).
  pose proof (create_loop_created (visits manifest) ([], []) d) as Hloop.
  destruct (foldM (create_visit B opts) (visits manifest) ([], []) d)
    as [[lc d1] [e | st]]; unfold out_of, log_of in *; cbn [fst snd] in *;
    [discriminate |].
  destruct (Hloop st eq_refl) as [Hset Hok]. clear Hloop.
  pose proof (run_deferred_sql_no_create (fst st) d1) as Hdef.
  destruct (run_deferred_sql B (fst st) d1) as [[l3 d3] [e | u]];
    unfold log_of in *; cbn [fst snd] in *; [discriminate |].
  destruct (after_creation_run B opts manifest app_labels (snd st) d3)
    as [Hev [Hout _]].
  destruct (after_creation B opts manifest app_labels (snd st) d3)
    as [[l2 d2] r2]; unfold out_of, log_of in *; cbn [fst snd] in *.
  intro Hret. rewrite (Hout created Hret).
  assert (Hl2 : Forall (fun e => is_create e = false) l2).
  { eapply Forall_impl; [| exact Hev]. intros ev He.
    now apply (install_event_classes _ _ He). }
  assert (Hsay : forall b msg, Forall (fun e => is_create e = false) (say b msg)).
  { intros [] msg; repeat constructor. }
  assert (Hparts : forall (Q : Event -> Prop),
            Q announced -> (forall msg, Q (EStdout msg)) ->
            (forall sp, Q (EAtomicEnter sp)) -> Q (EAtomicExit Commit) ->
            Forall Q lc ->
            (forall ev, is_create ev = false -> Q ev) ->
            Forall Q (announced :: creating_tables opts
                      ++ (EAtomicEnter (can_rollback_ddl B)
                          :: (lc ++ running ++ l3) ++ [EAtomicExit Commit]) ++ l2)).
  { intros Q Ha Hs He Hx Hlc Hrest. constructor; [exact Ha |].
    apply Forall_app. split; [apply creating_tables_stdout, Hs |].
    apply Forall_app. split.
    - constructor; [apply He |]. apply Forall_app. split; [| now repeat constructor].
      apply Forall_app. split; [exact Hlc |].
      apply Forall_app. split; [apply Forall_say, Hs |].
      eapply Forall_impl; [| exact Hdef]. exact Hrest.
    - eapply Forall_impl; [| exact Hl2]. exact Hrest. }
  split.
  - intro m. rewrite Hset. cbn [In].
    assert (Hin : created_in lc m <->
                  created_in (announced :: creating_tables opts
                              ++ (EAtomicEnter (can_rollback_ddl B)
                                  :: (lc ++ running ++ l3) ++ [EAtomicExit Commit])
                              ++ l2) m).
    { split.
      - intros [b Hb]. exists b. right. apply in_or_app. right.
        apply in_or_app. left. right. apply in_or_app. left.
        apply in_or_app. now left.
      - intros [b Hb]. exists b.
        assert (HQ : Forall (fun ev => ev = ECreateModel m (Some b) -> In ev lc)
                       (announced :: creating_tables opts
                        ++ (EAtomicEnter (can_rollback_ddl B)
                            :: (lc ++ running ++ l3) ++ [EAtomicExit Commit])
                        ++ l2)).
        { apply Hparts; try discriminate.
          - apply Forall_forall. auto.
          - intros ev Hnc ->. discriminate. }
        rewrite Forall_forall in HQ. exact (HQ _ Hb eq_refl). }
    rewrite <- Hin. tauto.
  - intros m Hm.
    assert (HQ : Forall (fun ev => ev <> ECreateModel m None)
                   (announced :: creating_tables opts
                    ++ (EAtomicEnter (can_rollback_ddl B)
                        :: (lc ++ running ++ l3) ++ [EAtomicExit Commit])
                    ++ l2)).
    { apply Hparts; try discriminate.
      - eapply Forall_impl; [| exact Hok]. auto.
      - intros ev Hnc ->. discriminate. }
    rewrite Forall_forall in HQ. exact (HQ _ Hm eq_refl).
Qed.

End SyncRuns.

(** ** The entries of the manifest *)

Lemma in_str_false_intro (s : string) (l : list string) :
  ~ In s l -> in_str s l = false.
Proof. intro H. unfold in_str. destruct (in_dec string_dec s l); tauto. Qed.

Lemma od_set_keys {V : Type} (k : string) (v : V) (d : list (string * V)) :
  map fst (od_set k v d) =
  if in_str k (map fst d) then map fst d else map fst d ++ [k].
Proof.
  induction d as [| [k' v'] d IH]; [reflexivity |].
  cbn [od_set]. destruct (string_dec k k') as [<- | Hne].
  - cbn [map fst]. rewrite in_str_true; [reflexivity | now left].
  - cbn [map fst]. rewrite IH.
    destruct (in_str k (map fst d)) eqn:Hmem.
    + apply in_str_iff in Hmem. rewrite in_str_true; [reflexivity | now right].
    + rewrite in_str_false_intro; [reflexivity |].
      intros [H | H]; [congruence |].
      apply in_str_iff in H. congruence.
Qed.

Lemma od_set_fresh {V : Type} (k : string) (v : V) (d : list (string * V)) :
  ~ In k (map fst d) -> od_set k v d = d ++ [(k, v)].
Proof.
  induction d as [| [k' v'] d IH]; intro H; [reflexivity |].
  cbn [od_set]. destruct (string_dec k k') as [<- | Hne].
  - exfalso. apply H. now left.
  - cbn [List.app]. rewrite IH; [reflexivity |]. intro Hin. apply H. now right.
Qed.

Lemma OrderedDict_keys {V : Type} (items : list (string * V)) :
  NoDup (map fst (OrderedDict items)) /\
  forall k, In k (map fst (OrderedDict items)) <-> In k (map fst items).
Proof.
  unfold OrderedDict.
  assert (H : forall acc : list (string * V),
            NoDup (map fst acc) ->
            NoDup (map fst (fold_left (fun d kv => od_set (fst kv) (snd kv) d)
                                      items acc)) /\
            forall k, In k (map fst (fold_left
                                       (fun d kv => od_set (fst kv) (snd kv) d)
                                       items acc)) <->
                      In k (map fst acc) \/ In k (map fst items)).
  { induction items as [| [k v] items IH]; intros acc Hacc.
    - split; [exact Hacc |]. intro k. cbn. tauto.
    - cbn [fold_left fst snd].
      assert (Hkeys := od_set_keys k v acc).
      assert (Hnd : NoDup (map fst (od_set k v acc))).
      { rewrite Hkeys. destruct (in_str k (map fst acc)) eqn:Hmem; [exact Hacc |].
        apply NoDup_app; [exact Hacc | repeat constructor; intros [] |].
        intros x Hx [<- | []]. apply in_str_iff in Hx. congruence. }
      destruct (IH _ Hnd) as [IH1 IH2]. split; [exact IH1 |].
      intro x. rewrite IH2, Hkeys. cbn [map fst In].
      destruct (in_str k (map fst acc)) eqn:Hmem.
      + apply in_str_iff in Hmem. split; [tauto |].
        intros [H | [<- | H]]; auto.
      + rewrite in_app_iff. cbn [In]. tauto. }
  destruct (H [] (NoDup_nil _)) as [H1 H2]. split; [exact H1 |].
  intro k. rewrite H2. cbn. tauto.
Qed.

Lemma OrderedDict_nodup {V : Type} (items : list (string * V)) :
  NoDup (map fst items) -> OrderedDict items = items.
Proof.
  unfold OrderedDict.
  assert (H : forall acc : list (string * V),
            NoDup (map fst (acc ++ items)) ->
            fold_left (fun d kv => od_set (fst kv) (snd kv) d) items acc =
            acc ++ items).
  { induction items as [| [k v] items IH]; intros acc Hnd.
    - now rewrite app_nil_r.
    - cbn [fold_left fst snd]. rewrite od_set_fresh.
      + rewrite IH; rewrite <- app_assoc; [reflexivity | exact Hnd].
      + rewrite map_app in Hnd. cbn [map fst] in Hnd.
        apply NoDup_remove_2 in Hnd. intro Hin. apply Hnd.
        apply in_or_app. now left. }
  intro Hnd. now rewrite (H [] Hnd).
Qed.

Lemma NoDup_map_filter {X Y : Type} (g : X -> Y) (f : X -> bool) (l : list X) :
  NoDup (map g l) -> NoDup (map g (filter f l)).
Proof.
  induction l as [| x l IH]; intro H; [constructor |].
  cbn [map] in H. inversion H as [| y ys Hnin Hnd]; subst.
  cbn [filter]. destruct (f x); [| now apply IH].
  cbn [map]. constructor; [| now apply IH].
  intro Hin. apply Hnin. apply in_map_iff in Hin as [x' [Hx' Hf]].
  apply filter_In in Hf as [Hf _]. apply in_map_iff. eauto.
Qed.

Section Manifest.

Context {DB : Type}.
Variable B : Backend DB.
Variable P : Project.

(** X9: when the labels of the installed applications are distinct (as
    the application registry guarantees), the manifest has exactly one
    entry for every installed application that has a models module and
    whose label was given, in the order of the registry, each with those
    of its models that are not installed: an application with nothing to
    install keeps an entry, with no model. *)
Theorem X9_manifest_of_registry (app_labels : list string) (d : DB) :
  NoDup (map label (app_configs P)) ->
  the_manifest B P app_labels d =
  map (fun app_config =>
         (label app_config,
          filter (model_installed B (table_names B d))
                 (migratable_models app_config)))
      (filter (fun app_config =>
                 models_module app_config && in_str (label app_config) app_labels)
              (app_configs P)).
Proof.
  intro Hnd. unfold the_manifest, manifest_of, all_models.
  rewrite map_map. cbn [fst snd]. apply OrderedDict_nodup.
  rewrite map_map. cbn [fst]. now apply NoDup_map_filter.
Qed.

(** X10: whatever the registry holds, the keys of the manifest are
    distinct, and they are the labels that were given and that belong to
    an installed application with a models module; they do not depend on
    the tables of the database. *)
Theorem X10_manifest_keys (app_labels : list string) (d : DB) :
  NoDup (map fst (the_manifest B P app_labels d)) /\
  (forall a, In a (map fst (the_manifest B P app_labels d)) <->
             In a app_labels /\
             exists app_config,
               In app_config (app_configs P) /\ label app_config = a /\
               models_module app_config = true) /\
  map fst (the_manifest B P app_labels d) = map fst (candidates P app_labels).
Proof.
  unfold the_manifest.
  destruct (OrderedDict_keys
              (map (fun item => (fst item,
                                 filter (model_installed B (table_names B d))
                                        (snd item)))
                   (all_models P app_labels))) as [Hnd Hkeys].
  split; [exact Hnd |]. split.
  - intro a. unfold manifest_of. rewrite Hkeys. unfold all_models.
    rewrite !map_map. cbn [fst]. rewrite in_map_iff. split.
    + intros [c [<- Hc]]. apply filter_In in Hc as [Hc Hsel].
      apply andb_true_iff in Hsel as [Hmod Hlab]. apply in_str_iff in Hlab.
      split; [exact Hlab |]. now exists c.
    + intros [Hlab [c [Hc [<- Hmod]]]]. exists c. split; [reflexivity |].
      apply filter_In. split; [exact Hc |].
      now rewrite Hmod, (in_str_true _ _ Hlab).
  - rewrite manifest_of_candidates, map_map. reflexivity.
Qed.

End Manifest.

Lemma X9_manifest_of_registry_witness :
  the_manifest Demo.backend Demo.project ["library"] Demo.up_to_date =
  map (fun app_config =>
         (label app_config,
          filter (model_installed Demo.backend
                    (table_names Demo.backend Demo.up_to_date))
                 (migratable_models app_config)))
      (filter (fun app_config =>
                 models_module app_config &&
                 in_str (label app_config) ["library"])
              (app_configs Demo.project)).
Proof.
  apply (X9_manifest_of_registry Demo.backend Demo.project ["library"]
           Demo.up_to_date).
  simpl. repeat constructor. intros [].
Defined.

(** ** The executor and the flush *)

Lemma migrations_run_app (l1 l2 : list Event) :
  migrations_run (l1 ++ l2) = migrations_run l1 ++ migrations_run l2.
Proof. apply flat_map_app. Qed.

Lemma migrations_run_none (l : list Event) :
  Forall (fun e => is_migrate e = false) l -> migrations_run l = [].
Proof.
  intro H. apply (flat_map_nil_Forall _ _ _ H).
  intros e He. destruct e; try reflexivity. discriminate.
Qed.

Lemma stdout_not_migrate (l : list Event) :
  Forall (fun e => is_stdout e = true) l -> Forall (fun e => is_migrate e = false) l.
Proof. apply Forall_impl. intros e He. now apply stdout_is_plain. Qed.

Section Executor.

Context {DB : Type}.
Variable B : Backend DB.
Variable P : Project.
Variable opts : Options.

Lemma run_migrations_calls (targets : list Target) (plan : Plan) (d : DB) :
  migrations_run (log_of (run_migrations B P opts targets plan d)) =
  match plan with
  | [] => []
  | _ :: _ => [(targets, plan, fake opts)]
  end.
Proof.
  destruct (run_migrations_run B P opts targets plan d)
    as [written [reported [Hw [Hr ->]]]].
  rewrite migrations_run_app, (migrations_run_none _ (stdout_not_migrate _ Hw)).
  destruct plan as [| step plan]; [reflexivity |].
  change (migrations_run (EMigrate targets (step :: plan) (fake opts) :: reported))
    with ((targets, step :: plan, fake opts) :: migrations_run reported).
  now rewrite (migrations_run_none _ (stdout_not_migrate _ Hr)).
Qed.

(** X11: the executor is called at most once in an invocation, and only
    with a plan that is not empty: when it is called, it is given the
    targets that were resolved, the plan that was computed right after
    [prepare_database] (before the legacy synchronisation and the flush,
    and not computed again after them) and the [fake] option.  An
    invocation that completes with a plan that is not empty has called
    it. *)
Theorem X11_executor_called_once_with_first_plan (d : DB)
  (targets : list Target) (run_syncdb labels_only : bool) :
  opt_list opts = false ->
  resolve_targets P opts = inr (targets, run_syncdb, labels_only) ->
  (migrations_run (log_of (handle B P opts d)) = [] \/
   (migration_plan B targets (prepare_database B d) <> [] /\
    migrations_run (log_of (handle B P opts d)) =
    [(targets, migration_plan B targets (prepare_database B d), fake opts)])) /\
  (out_of (handle B P opts d) = inr tt ->
   migration_plan B targets (prepare_database B d) <> [] ->
   migrations_run (log_of (handle B P opts d)) =
   [(targets, migration_plan B targets (prepare_database B d), fake opts)]).
Proof.
  intros Hlist Hres.
  destruct (detect_conflicts P) as [| c cs] eqn:Hconf.
  2: { unfold handle. rewrite Hlist, Hconf. unfold bind, raise, log_of, out_of.
       cbn [nonempty fst snd]. split; [now left | discriminate]. }
  rewrite (handle_run B P opts d _ _ _ Hlist Hconf Hres). cbv zeta.
  set (d0 := prepare_database B d).
  set (plan := migration_plan B targets d0).
  set (ops := operations_to_perform P opts targets run_syncdb labels_only).
  assert (Hops : migrations_run ops = []).
  { apply migrations_run_none, stdout_not_migrate, operations_to_perform_stdout. }
  destruct (legacy_sync_run B P opts run_syncdb d0) as [_ [_ [Hl1 _]]].
  apply migrations_run_none in Hl1.
  destruct (legacy_sync B P opts run_syncdb d0) as [[l1 d1] [e | created]];
    unfold log_of, out_of in *; cbn [fst snd] in *.
  { split; [left | discriminate].
    change (migrations_run (ops ++ l1) = []).
    now rewrite migrations_run_app, Hops, Hl1. }
  assert (Hl2 : migrations_run (log_of (flush_for_tests B opts d1)) = []).
  { apply migrations_run_none. eapply Forall_impl; [| apply flush_for_tests_not_legacy].
    now intros ev [_ [_ H]]. }
  destruct (flush_for_tests B opts d1) as [[l2 d2] [e | u]];
    unfold log_of, out_of in *; cbn [fst snd] in *.
  { split; [left | discriminate].
    change (migrations_run (ops ++ l1 ++ l2) = []).
    now rewrite !migrations_run_app, Hops, Hl1, Hl2. }
  pose proof (run_migrations_calls targets plan d2) as Hl3.
  destruct (run_migrations B P opts targets plan d2) as [[l3 d3] [e | u']];
    unfold log_of, out_of in *; cbn [fst snd] in *.
  - split; [| discriminate].
    change (migrations_run (ops ++ l1 ++ l2 ++ l3) = [] \/
            (plan <> [] /\
             migrations_run (ops ++ l1 ++ l2 ++ l3) = [(targets, plan, fake opts)])).
    rewrite !migrations_run_app, Hops, Hl1, Hl2, Hl3.
    destruct plan as [| step rest]; [now left | right].
    split; [discriminate | reflexivity].
  - assert (Hall : migrations_run (EPrepareDatabase :: ops ++ l1 ++ l2 ++ l3
                                   ++ [EPostMigrate created]) =
                   match plan with
                   | [] => []
                   | _ :: _ => [(targets, plan, fake opts)]
                   end).
    { change (migrations_run (ops ++ l1 ++ l2 ++ l3 ++ [EPostMigrate created]) =
              match plan with
              | [] => []
              | _ :: _ => [(targets, plan, fake opts)]
              end).
      rewrite !migrations_run_app, Hops, Hl1, Hl2, Hl3.
      cbn [List.app]. now rewrite app_nil_r. }
    rewrite Hall. split.
    + destruct plan as [| step rest]; [now left | right].
      split; [discriminate | reflexivity].
    + intros _ Hplan. destruct plan as [| step rest]; [contradiction | reflexivity].
Qed.

End Executor.

Lemma X11_executor_called_once_with_first_plan_witness :
  migrations_run (log_of (handle Demo.backend Demo.project
                                 (Demo.options None None 1) [])) =
  [([("blog", Some "0002_add_author")],
    migration_plan Demo.backend [("blog", Some "0002_add_author")]
                   (prepare_database Demo.backend []),
    fake (Demo.options None None 1))].
Proof.
  apply (X11_executor_called_once_with_first_plan Demo.backend Demo.project
           (Demo.options None None 1) [] [("blog", Some "0002_add_author")]
           true true).
  - reflexivity.
  - reflexivity.
  - reflexivity.
  - discriminate.
Defined.

Section Flush.

Context {DB : Type}.
Variable B : Backend DB.
Variable P : Project.
Variable opts : Options.

Lemma legacy_sync_commands (run_syncdb : bool) (d : DB) :
  ~ In ("flush", []) (commands (log_of (legacy_sync B P opts run_syncdb d))).
Proof.
  unfold legacy_sync.
  destruct (run_syncdb && nonempty (unmigrated_apps P)); [| intros []].
  unfold bind, tell.
  destruct (sync_apps_commands_prefix B P opts (unmigrated_apps P) d) as [k Hk].
  destruct (sync_apps B P opts (unmigrated_apps P) d) as [[l1 d1] r1].
  unfold log_of in *. cbn [fst] in *.
  rewrite commands_app, commands_say, Hk. cbn [List.app].
  intro Hin. apply in_map_iff in Hin as [a [Ha _]]. discriminate.
Qed.

Lemma stdout_commands (l : list Event) :
  Forall (fun e => is_stdout e = true) l -> commands l = [].
Proof.
  intro H. apply commands_none. eapply Forall_impl; [| exact H].
  intros e He. destruct e; try discriminate; reflexivity.
Qed.

Lemma run_migrations_after_flush (targets : list Target) (plan : Plan) (d : DB) :
  Forall (fun e => is_legacy_sync e = false /\ is_command e = false)
         (log_of (run_migrations B P opts targets plan d)).
Proof.
  destruct (run_migrations_run B P opts targets plan d)
    as [written [reported [Hw [Hr ->]]]].
  assert (Hplain : forall l, Forall (fun e => is_stdout e = true) l ->
            Forall (fun e => is_legacy_sync e = false /\ is_command e = false) l).
  { intro l. apply Forall_impl. intros e He.
    destruct e; try discriminate. now split. }
  apply Forall_app. split; [now apply Hplain |].
  destruct plan; [constructor |].
  constructor; [now split | now apply Hplain].
Qed.

(** X12: the flush the test runner asks for happens after the legacy
    synchronisation and before the migrations.  In an invocation that
    completes with [test_flush] set, [flush] is called once; before it
    the executor has not been called, and after it there is no table
    creation, no deferred or custom SQL, no fixture loading and no other
    command.  Without [test_flush], [flush] is never called. *)
Theorem X12_flush_between_sync_and_migrations (d : DB) :
  opt_list opts = false ->
  out_of (handle B P opts d) = inr tt ->
  (test_flush opts = true ->
   exists before after,
     log_of (handle B P opts d) = before ++ ECallCommand "flush" [] :: after /\
     Forall (fun e => is_migrate e = false) before /\
     ~ In ("flush", []) (commands before) /\
     Forall (fun e => is_legacy_sync e = false /\ is_command e = false) after) /\
  (test_flush opts = false ->
   ~ In ("flush", []) (commands (log_of (handle B P opts d)))).
Proof.
  intros Hlist.
  destruct (detect_conflicts P) as [| c cs] eqn:Hconf.
  2: { unfold handle. rewrite Hlist, Hconf. unfold bind, raise, out_of.
       cbn [nonempty snd]. discriminate. }
  destruct (resolve_targets P opts) as [e | [[targets run_syncdb] labels_only]]
    eqn:Hres.
  { unfold handle. rewrite Hlist, Hconf, Hres. unfold bind, lift, out_of.
    cbn [nonempty snd]. discriminate. }
  rewrite (handle_run B P opts d _ _ _ Hlist Hconf Hres). cbv zeta.
  set (d0 := prepare_database B d).
  set (plan := migration_plan B targets d0).
  set (ops := operations_to_perform P opts targets run_syncdb labels_only).
  pose proof (operations_to_perform_stdout P opts targets run_syncdb labels_only)
    as Hops. fold ops in Hops.
  destruct (legacy_sync_run B P opts run_syncdb d0) as [_ [_ [Hmig1 _]]].
  pose proof (legacy_sync_commands run_syncdb d0) as Hcmd1.
  destruct (legacy_sync B P opts run_syncdb d0) as [[l1 d1] [e | created]];
    unfold log_of, out_of in *; cbn [fst snd] in *; [discriminate |].
  pose proof (flush_for_tests_run B opts d1) as Hflush.
  destruct (flush_for_tests B opts d1) as [[l2 d2] [e | u]];
    unfold log_of, out_of in *; cbn [fst snd] in *; [discriminate |].
  pose proof (run_migrations_after_flush targets plan d2) as Hafter.
  destruct (run_migrations B P opts targets plan d2) as [[l3 d3] [e | u']];
    unfold log_of, out_of in *; cbn [fst snd] in *; [discriminate |].
  intros _.
  assert (Hbefore : ~ In ("flush", []) (commands (EPrepareDatabase :: ops ++ l1))).
  { change (~ In ("flush", []) (commands (ops ++ l1))).
    now rewrite commands_app, (stdout_commands _ Hops). }
  split.
  - intro Hon. destruct Hflush as [[Hoff _] | [_ Hl2]]; [congruence |]. subst l2.
    exists (EPrepareDatabase :: ops ++ l1), (l3 ++ [EPostMigrate created]).
    split; [| split; [| split]].
    + repeat (rewrite <- app_comm_cons || rewrite <- app_assoc). reflexivity.
    + constructor; [reflexivity |]. apply Forall_app.
      split; [now apply stdout_not_migrate | exact Hmig1].
    + exact Hbefore.
    + apply Forall_app. split; [exact Hafter | repeat constructor].
  - intro Hoff. destruct Hflush as [[_ Hl2] | [Hon _]]; [| congruence].
    inversion Hl2; subst l2.
    change (~ In ("flush", []) (commands (ops ++ l1 ++ [] ++ l3
                                          ++ [EPostMigrate created]))).
    rewrite !commands_app, (stdout_commands _ Hops). cbn [List.app].
    rewrite (commands_none l3).
    + intro Hin. apply in_app_or in Hin as [Hin | []]. now apply Hcmd1.
    + eapply Forall_impl; [| exact Hafter]. now intros ev [_ H].
Qed.

End Flush.

Lemma X12_flush_between_sync_and_migrations_witness :
  (test_flush Demo.test_runner_options = true ->
   exists before after,
     log_of (handle Demo.backend Demo.project Demo.test_runner_options []) =
       before ++ ECallCommand "flush" [] :: after /\
     Forall (fun e => is_migrate e = false) before /\
     ~ In ("flush", []) (commands before) /\
     Forall (fun e => is_legacy_sync e = false /\ is_command e = false) after) /\
  (test_flush Demo.test_runner_options = false ->
   ~ In ("flush", [])
        (commands (log_of (handle Demo.backend Demo.project
                                  Demo.test_runner_options [])))).
Proof.
  apply (X12_flush_between_sync_and_migrations Demo.backend Demo.project
           Demo.test_runner_options []).
  - reflexivity.
  - reflexivity.
Defined.

(** ** Verbosity 0 *)

Section Quiet.

Context {DB : Type}.
Variable B : Backend DB.
Variable P : Project.
Variable opts : Options.

Hypothesis quiet : (verbosity opts < 1)%Z.









End Quiet.


(** ** Transactions *)

Lemma bracketed_app (inside inside' : bool) (l1 l2 : list Event) :
  bracketed inside l1 = Some inside' ->
  bracketed inside (l1 ++ l2) = bracketed inside' l2.
Proof.
  revert inside. induction l1 as [| e l1 IH]; intros inside H.
  - now inversion H.
  - destruct e; cbn [bracketed List.app] in *; try (now apply IH);
      destruct inside; try discriminate; now apply IH.
Qed.

Lemma bracketed_outside (inside : bool) (l : list Event) :
  Forall outside_event l -> bracketed inside l = Some inside.
Proof.
  induction 1 as [| e l He Hl IH]; [reflexivity |].
  destruct e; cbn [bracketed]; try exact IH; destruct He.
Qed.

Lemma bracketed_inside (l : list Event) :
  Forall inside_event l -> bracketed true l = Some true.
Proof.
  induction 1 as [| e l He Hl IH]; [reflexivity |].
  destruct e; cbn [bracketed]; try exact IH; destruct He.
Qed.

Lemma bracketed_transaction (sp : bool) (how : AtomicExit)
  (l rest : list Event) :
  Forall inside_event l ->
  bracketed false (EAtomicEnter sp :: l ++ EAtomicExit how :: rest) =
  bracketed false rest.
Proof.
  intro H. cbn [bracketed].
  now rewrite (bracketed_app true true l _ (bracketed_inside l H)).
Qed.

Lemma bracketed_concat (blocks : list (list Event)) :
  Forall (fun block => bracketed false block = Some false) blocks ->
  bracketed false (List.concat blocks) = Some false.
Proof.
  induction 1 as [| block blocks Hb _ IH]; [reflexivity |].
  cbn [List.concat]. now rewrite (bracketed_app _ _ _ _ Hb).
Qed.

Lemma say_outside (b : bool) (msg : string) : Forall outside_event (say b msg).
Proof. destruct b; repeat constructor. Qed.

Section Transactions.

Context {DB : Type}.
Variable B : Backend DB.
Variable P : Project.
Variable opts : Options.

Lemma install_block_bracketed (created_models : list Model)
  (visit : string * Model) (block : list Event) :
  install_block B opts created_models visit block ->
  bracketed false block = Some false.
Proof.
  unfold install_block. cbv zeta.
  destruct (mem (snd visit) created_models); [| now intros ->].
  destruct (custom_sql_for_model B (snd visit)) as [| first rest].
  - intros ->. apply bracketed_outside, say_outside.
  - intros [attempted [outcome [-> Hcase]]].
    rewrite (bracketed_app false false _ _ (bracketed_outside _ _ (say_outside _ _))).
    assert (Hin : Forall inside_event
                    (map (EExecCustom (snd visit)) (first :: attempted))).
    { apply Forall_forall. intros e He. now apply in_map_iff in He as [s [<- _]]. }
    destruct Hcase as [[_ ->] | [k [e [sql [d0 [d1 [_ [_ [_ ->]]]]]]]]];
      rewrite (bracketed_transaction _ _ _ _ Hin); [reflexivity |].
    destruct (show_traceback opts); reflexivity.
Qed.

Lemma create_loop_inside (manifest : list (string * list Model)) (d : DB) :
  Forall inside_event
         (log_of (foldM (create_visit B opts) (visits manifest) ([], []) d)).
Proof.
  destruct (create_loop_spec B opts (visits manifest) ([], []) d) as [H _].
  eapply Forall_impl; [| exact H].
  intros e He. destruct e; simpl in He; try contradiction; exact I.
Qed.

Lemma run_deferred_sql_inside (q : list string) (d : DB) :
  Forall inside_event (log_of (run_deferred_sql B q d)).
Proof.
  destruct (run_deferred_sql_log B q d) as [k [-> _]].
  apply Forall_forall. intros e He. now apply in_map_iff in He as [s [<- _]].
Qed.

Lemma after_creation_bracketed (manifest : list (string * list Model))
  (app_labels : list string) (created_models : list Model) (d : DB) :
  bracketed false
    (log_of (after_creation B opts manifest app_labels created_models d)) =
  Some false.
Proof.
  destruct (after_creation_steps B opts manifest app_labels created_models d)
    as [l2 [d2 [l3 [Hcs [Hl3 [-> _]]]]]].
  destruct (custom_sql_phase_blocks B opts manifest created_models d)
    as [_ [blocks [Hlog Hblocks]]].
  rewrite Hcs in Hlog. unfold log_of in Hlog. cbn [fst] in Hlog. subst l2.
  rewrite (bracketed_app false false _ _ (bracketed_outside _ _ (say_outside _ _))).
  assert (Hb : bracketed false (List.concat blocks) = Some false).
  { apply bracketed_concat.
    clear Hcs. induction Hblocks as [| visit block vs blocks Hvb _ IH];
      constructor; [eapply install_block_bracketed, Hvb | exact IH]. }
  rewrite (bracketed_app false false _ _ Hb). subst l3.
  destruct (load_fixtures_log B opts app_labels d2) as [k [-> _]].
  apply bracketed_outside, Forall_forall.
  intros e He. now apply in_map_iff in He as [a [<- _]].
Qed.

(** X14: the transactions of [sync_apps] are well bracketed on every exit
    path.  In every run, returning or raising, no transaction is opened
    inside another one, every transaction that is opened is closed
    (committed or rolled back) before the run ends, and every table
    creation, deferred statement and custom SQL statement is executed
    inside a transaction. *)
Theorem X14_transactions_are_bracketed (app_labels : list string) (d : DB) :
  bracketed false (log_of (sync_apps B P opts app_labels d)) = Some false.
Proof.
  rewrite sync_apps_run. cbv zeta. rewrite create_phase_run. cbv zeta.
  set (manifest := the_manifest B P app_labels d).
  set (running := say (1 <=? verbosity opts)%Z ("    Running deferred SQL..." +++ nl)).
  assert (Hstart : forall rest,
            bracketed false
              (EPreMigrate (py_set (chain_values manifest))
               :: creating_tables opts ++ rest) = bracketed false rest).
  { intro rest. cbn [bracketed]. apply bracketed_app, bracketed_outside.
    unfold creating_tables. apply say_outside. }
  pose proof (create_loop_inside manifest d) as Hlc.
  destruct (foldM (create_visit B opts) (visits manifest) ([], []) d)
    as [[lc d1] [e | st]]; unfold log_of in *; cbn [fst snd] in *.
  - rewrite Hstart. now rewrite (bracketed_transaction _ _ _ [] Hlc).
  - pose proof (run_deferred_sql_inside (fst st) d1) as Hl3.
    assert (Hinner : forall l3, Forall inside_event l3 ->
                                Forall inside_event (lc ++ running ++ l3)).
    { intros l3 H3. apply Forall_app. split; [exact Hlc |].
      apply Forall_app. split; [| exact H3].
      subst running. destruct (1 <=? verbosity opts)%Z; repeat constructor. }
    destruct (run_deferred_sql B (fst st) d1) as [[l3 d3] [e | u]];
      unfold log_of in *; cbn [fst snd] in *.
    + rewrite Hstart. now rewrite (bracketed_transaction _ _ _ [] (Hinner l3 Hl3)).
    + pose proof (after_creation_bracketed manifest app_labels (snd st) d3) as Hac.
      destruct (after_creation B opts manifest app_labels (snd st) d3)
        as [[l2 d2] r2]; unfold log_of in *; cbn [fst snd] in *.
      rewrite Hstart.
      rewrite (bracketed_app false false
                 (EAtomicEnter (can_rollback_ddl B)
                  :: (lc ++ running ++ l3) ++ [EAtomicExit Commit]) l2);
        [exact Hac |].
      now rewrite (bracketed_transaction _ _ _ [] (Hinner l3 Hl3)).
Qed.

End Transactions.

(** ** The phases of [sync_apps] *)

Section Phases.

Context {DB : Type}.
Variable B : Backend DB.
Variable P : Project.
Variable opts : Options.

(** X15: [sync_apps] works in three phases that do not overlap.  Every
    trace splits into a first part with the table creations and the
    deferred statements, a second part with the custom SQL and a third
    part with the fixture loading only; the second and third parts are
    empty unless the first one ends with the commit of the creation
    transaction. *)
Theorem X15_sync_apps_phases (app_labels : list string) (d : DB) :
  exists tables custom fixtures,
    log_of (sync_apps B P opts app_labels d) = tables ++ custom ++ fixtures /\
    Forall (fun e => is_exec_custom e = false /\ is_command e = false) tables /\
    Forall (fun e => is_create e = false /\ is_exec_deferred e = false /\
                     is_command e = false) custom /\
    Forall (fun e => is_command e = true) fixtures /\
    (custom ++ fixtures <> [] ->
     exists earlier, tables = earlier ++ [EAtomicExit Commit]).
Proof.
  rewrite sync_apps_run. cbv zeta.
  set (manifest := the_manifest B P app_labels d).
  set (announced := EPreMigrate (py_set (chain_values manifest))).
  pose proof (create_phase_no_command B opts manifest d) as Hcp.
  assert (Hfirst : forall lc,
            Forall (fun e => is_command e = false /\ is_exec_custom e = false) lc ->
            Forall (fun e => is_exec_custom e = false /\ is_command e = false)
                   (announced :: creating_tables opts ++ lc)).
  { intros lc Hlc. constructor; [now split |]. apply Forall_app. split.
    - apply creating_tables_stdout. now split.
    - eapply Forall_impl; [| exact Hlc]. now intros e [H1 H2]. }
  rewrite create_phase_run in Hcp |- *. cbv zeta in Hcp |- *.
  destruct (foldM (create_visit B opts) (visits manifest) ([], []) d)
    as [[lc d1] [e | st]]; unfold log_of in *; cbn [fst snd] in *.
  { eexists. exists [], []. split; [cbn [List.app]; now rewrite app_nil_r |].
    split; [now apply Hfirst |]. split; [constructor |]. split; [constructor |].
    intro H. now destruct H. }
  destruct (run_deferred_sql B (fst st) d1) as [[l3 d3] [e | u]];
    cbn [fst snd] in *.
  { eexists. exists [], []. split; [cbn [List.app]; now rewrite app_nil_r |].
    split; [now apply Hfirst |]. split; [constructor |]. split; [constructor |].
    intro H. now destruct H. }
  destruct (after_creation_steps B opts manifest app_labels (snd st) d3)
    as [l2 [d2 [lf [Hcs [Hlf [Hlog _]]]]]].
  pose proof (custom_sql_phase_events B opts manifest (snd st) d3) as Hev.
  pose proof (custom_sql_phase_no_command B opts manifest (snd st) d3) as Hnc.
  rewrite Hcs in Hev, Hnc. unfold log_of in Hev, Hnc. cbn [fst] in Hev, Hnc.
  destruct (load_fixtures_log B opts app_labels d2) as [k [Hk _]].
  rewrite <- Hlf in Hk.
  destruct (after_creation B opts manifest app_labels (snd st) d3)
    as [[la da] ra]; unfold log_of in *; cbn [fst snd] in *. subst la.
  set (running := say (1 <=? verbosity opts)%Z ("    Running deferred SQL..." +++ nl))
    in *.
  exists (announced :: creating_tables opts
          ++ EAtomicEnter (can_rollback_ddl B)
             :: (lc ++ running ++ l3) ++ [EAtomicExit Commit]),
    (say (1 <=? verbosity opts)%Z ("  Installing custom SQL..." +++ nl) ++ l2), lf.
  split; [repeat (rewrite <- app_comm_cons || rewrite <- app_assoc); reflexivity |].
  split; [now apply Hfirst |]. split; [| split].
  - apply Forall_app. split; [apply Forall_say; repeat split |].
    rewrite Forall_forall in Hev, Hnc. apply Forall_forall. intros e He.
    destruct (install_event_classes _ _ (Hev _ He)) as [H1 [H2 _]].
    split; [exact H1 |]. split; [exact H2 | now apply Hnc].
  - rewrite Hk. apply Forall_forall.
    intros e He. now apply in_map_iff in He as [a [<- _]].
  - intros _.
    exists (announced :: creating_tables opts
            ++ EAtomicEnter (can_rollback_ddl B) :: lc ++ running ++ l3).
    repeat (rewrite <- app_comm_cons || rewrite <- app_assoc). reflexivity.
Qed.

End Phases.

(** ** The extra properties on the demonstration installation *)


Lemma X4_named_component_skips_legacy_sync_witness :
  Forall (fun e => is_legacy_sync e = false)
         (log_of (handle Demo.backend Demo.project
                         (Demo.options (Some "blog") None 1) [])) /\
  (forall ms,
     In ms (pre_signals (log_of (handle Demo.backend Demo.project
                                        (Demo.options (Some "blog") None 1) []))) ->
     ms = []) /\
  (forall ms,
     In ms (post_signals (log_of (handle Demo.backend Demo.project
                                         (Demo.options (Some "blog") None 1) []))) ->
     ms = []).
Proof.
  apply (X4_named_component_skips_legacy_sync Demo.backend Demo.project
           (Demo.options (Some "blog") None 1) [] "blog").
  - reflexivity.
  - reflexivity.
Defined.

Lemma X7_creation_failure_is_fatal_witness :
  out_of (sync_apps Demo.broken_editor Demo.project (Demo.options None None 1)
                    ["library"] []) = inl (OtherError "permission denied") /\
  (exists earlier,
     log_of (sync_apps Demo.broken_editor Demo.project (Demo.options None None 1)
                       ["library"] []) = earlier ++ [EAtomicExit Rollback]) /\
  (exists d1,
     db_of (sync_apps Demo.broken_editor Demo.project (Demo.options None None 1)
                      ["library"] []) = rollback Demo.broken_editor [] d1) /\
  Forall (fun ev => is_exec_custom ev = false /\ is_command ev = false)
         (log_of (sync_apps Demo.broken_editor Demo.project
                            (Demo.options None None 1) ["library"] [])).
Proof.
  apply (X7_creation_failure_is_fatal Demo.broken_editor Demo.project
           (Demo.options None None 1) ["library"] []
           (OtherError "permission denied")).
  reflexivity.
Defined.

Lemma X8_created_set_is_what_was_created_witness :
  (forall m,
     In m [Demo.author; Demo.book] <->
     created_in (log_of (sync_apps Demo.backend Demo.project
                                   (Demo.options None None 1) ["library"] [])) m) /\
  (forall m,
     ~ In (ECreateModel m None)
          (log_of (sync_apps Demo.backend Demo.project
                             (Demo.options None None 1) ["library"] []))).
Proof.
  apply (X8_created_set_is_what_was_created Demo.backend Demo.project
           (Demo.options None None 1) ["library"] [] [Demo.author; Demo.book]).
  reflexivity.
Defined.

(** The test runner's invocation on the empty database: quiet, with the
    flush between the synchronisation and the migrations. *)
Example handle_for_the_test_runner :
  handle Demo.backend Demo.project Demo.test_runner_options [] =
  ([EPrepareDatabase;
    EPreMigrate [Demo.author; Demo.book; Demo.rare_book; Demo.legacy_view];
    EAtomicEnter true;
    ECreateModel Demo.author (Some []); ESchemaEditorExit [];
    ECreateModel Demo.book
      (Some ["ALTER TABLE library_book ADD FOREIGN KEY (author_id)"]);
    ESchemaEditorExit [];
    EExecDeferred "ALTER TABLE library_book ADD FOREIGN KEY (author_id)";
    EAtomicExit Commit;
    EAtomicEnter true; EExecCustom Demo.author "FAIL author.sql";
    EAtomicExit Rollback;
    EStderr (custom_sql_failure_message "library" Demo.author
               (OtherError "syntax error"));
    EAtomicEnter true; EExecCustom Demo.book "INSERT INTO library_book";
    EAtomicExit Commit;
    ECallCommand "flush" [];
    EMigrate [("blog", Some "0002_add_author")]
             [(("blog", "0002_add_author"), false)] false;
    EPostMigrate [Demo.author; Demo.book]],
   ["library_author"; "library_book"; "django_migrations"], inr tt).
Proof. reflexivity. Qed.
